(** * RialoFlow: the simulation engine of [simulation.js]

    A shallow embedding of the engine part of [simulation.js]: the step
    table [SIMULATION_STEPS], the presets, the global [state] object and the
    functions that drive it ([resetSimulation], [executeStep], [nextStep],
    [playSimulation], [startPlaySequence], [stopSimulation], [applyPreset],
    [getTotalValue], [getReserveRatio], [calculateRiskScore], [logEvent]).

    Rendering ([renderAll], [renderControls], [updateMicroStatus], ...) only
    writes to the DOM and is left out; the one thing kept from it is that
    [renderControls] disables the play button exactly while [isPlaying].

    The engine is written once, over an interface [Number] of the JavaScript
    arithmetic it uses, and the interface has two instances:
    - [exact]: rationals in lowest terms plus NaN. Rounding and the
      infinities are not represented; the general laws are proved here.
    - [binary64]: IEEE 754 double precision ([SpecFloat], precision 53,
      [emax] 1024), the arithmetic JavaScript really performs; the concrete
      scenarios are evaluated here as well.
    Statements that do not depend on arithmetic are proved for every
    instance. *)

From Stdlib Require Import ZArith QArith Qminmax Bool List String Lia Lqa.
From Stdlib Require Import Floats.SpecFloat.
Import ListNotations.

Set Implicit Arguments.

(** ** JavaScript numbers *)

Declare Scope js_scope.
Delimit Scope js_scope with js.

Class Number (N : Type) : Type := {
  lit : Z -> N;                  (* an integer literal *)
  lit_half : N;                  (* the literal 0.5 *)
  nan : N;                       (* NaN *)
  js_add : N -> N -> N;          (* a + b *)
  js_sub : N -> N -> N;          (* a - b *)
  js_mul : N -> N -> N;          (* a * b *)
  js_div : N -> N -> N;          (* a / b *)
  js_lt : N -> N -> bool;        (* a < b *)
  js_ge : N -> N -> bool;        (* a >= b *)
  js_seq : N -> N -> bool;       (* a === b *)
  Math_min : N -> N -> N;
  Math_max : N -> N -> N
}.

Infix "+" := js_add : js_scope.
Infix "-" := js_sub : js_scope.
Infix "*" := js_mul : js_scope.
Infix "/" := js_div : js_scope.
Infix "<" := js_lt : js_scope.
Infix ">=" := js_ge : js_scope.
Infix "===" := js_seq (at level 70, no associativity) : js_scope.

(** *** Exact numbers: a rational in lowest terms, or NaN *)

Inductive exact : Type :=
| Fin (q : Q)
| NotANumber.

Definition exact_op (f : Q -> Q -> Q) (x y : exact) : exact :=
  match x, y with
  | Fin a, Fin b => Fin (Qred (f a b))
  | _, _ => NotANumber
  end.

(** Division by zero gives an infinity (or NaN) in JavaScript; the exact
    numbers have no infinity, and the engine never divides by zero: its
    divisors are the literals 100, 1000 and 1000000 and a total that
    [calculateRiskScore] has compared with 0. *)
Definition exact_div (x y : exact) : exact :=
  match x, y with
  | Fin a, Fin b => if Qeq_bool b 0 then NotANumber else Fin (Qred (a / b))
  | _, _ => NotANumber
  end.

Definition exact_test (f : Q -> Q -> bool) (x y : exact) : bool :=
  match x, y with
  | Fin a, Fin b => f a b
  | _, _ => false
  end.

#[export] Instance exact_Number : Number exact := {|
  lit z := Fin (inject_Z z);
  lit_half := Fin (1 # 2);
  nan := NotANumber;
  js_add := exact_op Qplus;
  js_sub := exact_op Qminus;
  js_mul := exact_op Qmult;
  js_div := exact_div;
  js_lt := exact_test (fun a b => negb (Qle_bool b a));
  js_ge := exact_test (fun a b => Qle_bool b a);
  js_seq := exact_test Qeq_bool;
  Math_min := exact_op Qmin;
  Math_max := exact_op Qmax
|}.

(** *** IEEE 754 binary64 *)

Definition binary64 : Type := spec_float.

Definition b64_of_Z (z : Z) : binary64 := binary_normalize 53 1024 z 0 false.

(** [Math.max]: NaN if an argument is NaN, and +0 counts as larger than -0. *)
Definition b64_max (x y : binary64) : binary64 :=
  match SFcompare x y with
  | None => S754_nan
  | Some Lt => y
  | Some Gt => x
  | Some Eq => match x with S754_zero true => y | _ => x end
  end.

(** [Math.min]: NaN if an argument is NaN, and -0 counts as smaller than +0. *)
Definition b64_min (x y : binary64) : binary64 :=
  match SFcompare x y with
  | None => S754_nan
  | Some Lt => x
  | Some Gt => y
  | Some Eq => match x with S754_zero false => y | _ => x end
  end.

#[export] Instance binary64_Number : Number binary64 := {|
  lit := b64_of_Z;
  lit_half := SFdiv 53 1024 (b64_of_Z 1) (b64_of_Z 2);
  nan := S754_nan;
  js_add := SFadd 53 1024;
  js_sub := SFsub 53 1024;
  js_mul := SFmul 53 1024;
  js_div := SFdiv 53 1024;
  js_lt := SFltb;
  js_ge x y := SFleb y x;
  js_seq := SFeqb;
  Math_min := b64_min;
  Math_max := b64_max
|}.

(** ** The engine *)

Section Engine.

Context {N : Type} `{Number N}.

Local Open Scope js_scope.

(** A value stored in a parameter slot: a number, or [undefined] (which is
    what reading a missing property of a preset gives). *)
Inductive jsval : Type :=
| Num (x : N)
| Undefined.

(** The conversion arithmetic and comparison operators apply to an operand. *)
Definition ToNumber (v : jsval) : N :=
  match v with
  | Num x => x
  | Undefined => nan
  end.

Record Portfolio : Type := {
  usdc : N;
  tBills : N;
  bonds : N;
  cash : N
}.

Record Params : Type := {
  shockMagnitude : jsval;
  targetReserveRatio : jsval;
  yieldDistribution : jsval
}.

(** A log line, kept as its template with the interpolated values (the
    numbers are the arguments of [toFixed], before formatting). *)
Inductive LogEntry : Type :=
| LogReset
    (* "Simulation reset. Ready for T+0." *)
| LogShock (pct : jsval) (lossK : N)
    (* "[T+1] Market shock: Bonds dropped by pct% (-$lossKk)" *)
| LogRebalanceTriggered (soldK : N)
    (* "[T+2] Rebalance triggered: Sold $soldKk Bonds, bought T-Bills" *)
| LogRebalanceHealthy (ratio : N)
    (* "[T+2] Rebalance check: Ratio healthy (ratio%), no action needed" *)
| LogDistribution (paidK : N) (pct : jsval)
    (* "[T+3] Distribution: Paid out $paidKk (pct%) yield" *)
| LogPreset (label : option string).
    (* "Preset loaded: label" *)

Record HistoryEntry : Type := {
  step : nat;
  value : N
}.

(** The [state] object. [history] is a JavaScript array written by index, so
    a slot can be a hole; [timerId] is [null] or a timer handle.
    [state.initialPortfolio] is never assigned and is the constant
    [initialPortfolio] below. *)
Record State : Type := {
  currentStep : nat;
  isPlaying : bool;
  hasEverPlayed : bool;
  timerId : option nat;
  params : Params;
  portfolio : Portfolio;
  history : list (option HistoryEntry);
  logs : list LogEntry
}.

Definition initialPortfolio : Portfolio := {|
  usdc := lit 400000;
  tBills := lit 300000;
  bonds := lit 200000;
  cash := lit 100000
|}.

Definition set_bonds (x : N) (p : Portfolio) : Portfolio :=
  {| usdc := usdc p; tBills := tBills p; bonds := x; cash := cash p |}.

Definition set_tBills (x : N) (p : Portfolio) : Portfolio :=
  {| usdc := usdc p; tBills := x; bonds := bonds p; cash := cash p |}.

Definition set_cash (x : N) (p : Portfolio) : Portfolio :=
  {| usdc := usdc p; tBills := tBills p; bonds := bonds p; cash := x |}.

(** *** Calculation helpers *)

Definition getTotalValue (p : Portfolio) : N :=
  usdc p + tBills p + bonds p + cash p.


Definition calculateRiskScore (p : Portfolio) (ps : Params) : N :=
  let total := getTotalValue p in
  if total === lit 0 then lit 0 else
  let wBonds := bonds p / total in
  let wCash := cash p / total in
  let wBills := tBills p / total in
  let wUsdc := usdc p / total in
  let compositionRisk :=
    (wBonds * lit 80) + (wBills * lit 10) + (wUsdc * lit 5) + (wCash * lit 0) in
  let shockFactor := lit 1 + (ToNumber (shockMagnitude ps) / lit 100) in
  let finalRisk := compositionRisk * shockFactor in
  Math_min (lit 100) (Math_max (lit 0) finalRisk).

(** [logEvent]: push the message ([renderLogs] is rendering). *)
Definition logEvent (msg : LogEntry) (s : State) : State :=
  {| currentStep := currentStep s; isPlaying := isPlaying s;
     hasEverPlayed := hasEverPlayed s; timerId := timerId s;
     params := params s; portfolio := portfolio s; history := history s;
     logs := logs s ++ [msg] |}.

(** *** The step table

    Each [apply] reads [state.params], may call [logEvent] (which writes
    [state.logs]) and returns the new portfolio. *)

Definition INITIAL_apply (s : State) (currentPortfolio : Portfolio)
  : Portfolio * State :=
  (initialPortfolio, s).

Definition SHOCK_apply (s : State) (currentPortfolio : Portfolio)
  : Portfolio * State :=
  let p := currentPortfolio in
  let shockFactor := lit 1 - (ToNumber (shockMagnitude (params s)) / lit 100) in
  let oldBonds := bonds p in
  let p := set_bonds (bonds p * shockFactor) p in
  let s := logEvent (LogShock (shockMagnitude (params s))
                              ((oldBonds - bonds p) / lit 1000)) s in
  (p, s).

Definition REBALANCE_apply (s : State) (currentPortfolio : Portfolio)
  : Portfolio * State :=
  let p := currentPortfolio in
  let total := getTotalValue p in
  let ratio := (total / lit 1000000) * lit 100 in
  if ratio < ToNumber (targetReserveRatio (params s)) then
    let sellAmount := bonds p * lit_half in
    let p := set_bonds (bonds p - sellAmount) p in
    let p := set_tBills (tBills p + sellAmount) p in
    let s := logEvent (LogRebalanceTriggered (sellAmount / lit 1000)) s in
    (p, s)
  else
    let s := logEvent (LogRebalanceHealthy ratio) s in
    (p, s).

Definition DISTRIBUTION_apply (s : State) (currentPortfolio : Portfolio)
  : Portfolio * State :=
  let p := currentPortfolio in
  let total := getTotalValue p in
  let distAmount := total * (ToNumber (yieldDistribution (params s)) / lit 100) in
  let p :=
    if cash p >= distAmount then
      set_cash (cash p - distAmount) p
    else
      let remainder := distAmount - cash p in
      let p := set_cash (lit 0) p in
      set_tBills (tBills p - remainder) p in
  let s := logEvent (LogDistribution (distAmount / lit 1000)
                                     (yieldDistribution (params s))) s in
  (p, s).

Record StepDef : Type := {
  id : nat;
  key : string;
  apply : State -> Portfolio -> Portfolio * State
}.

Definition SIMULATION_STEPS : list StepDef := [
  {| id := 0; key := "INITIAL"; apply := INITIAL_apply |};
  {| id := 1; key := "SHOCK"; apply := SHOCK_apply |};
  {| id := 2; key := "REBALANCE"; apply := REBALANCE_apply |};
  {| id := 3; key := "DISTRIBUTION"; apply := DISTRIBUTION_apply |}
].

(** *** State management *)

Definition set_currentStep (x : nat) (s : State) : State :=
  {| currentStep := x; isPlaying := isPlaying s;
     hasEverPlayed := hasEverPlayed s; timerId := timerId s;
     params := params s; portfolio := portfolio s; history := history s;
     logs := logs s |}.

Definition set_isPlaying (x : bool) (s : State) : State :=
  {| currentStep := currentStep s; isPlaying := x;
     hasEverPlayed := hasEverPlayed s; timerId := timerId s;
     params := params s; portfolio := portfolio s; history := history s;
     logs := logs s |}.

Definition set_hasEverPlayed (x : bool) (s : State) : State :=
  {| currentStep := currentStep s; isPlaying := isPlaying s;
     hasEverPlayed := x; timerId := timerId s;
     params := params s; portfolio := portfolio s; history := history s;
     logs := logs s |}.

Definition set_timerId (x : option nat) (s : State) : State :=
  {| currentStep := currentStep s; isPlaying := isPlaying s;
     hasEverPlayed := hasEverPlayed s; timerId := x;
     params := params s; portfolio := portfolio s; history := history s;
     logs := logs s |}.

Definition set_params (x : Params) (s : State) : State :=
  {| currentStep := currentStep s; isPlaying := isPlaying s;
     hasEverPlayed := hasEverPlayed s; timerId := timerId s;
     params := x; portfolio := portfolio s; history := history s;
     logs := logs s |}.

Definition set_portfolio (x : Portfolio) (s : State) : State :=
  {| currentStep := currentStep s; isPlaying := isPlaying s;
     hasEverPlayed := hasEverPlayed s; timerId := timerId s;
     params := params s; portfolio := x; history := history s;
     logs := logs s |}.

Definition set_history (x : list (option HistoryEntry)) (s : State) : State :=
  {| currentStep := currentStep s; isPlaying := isPlaying s;
     hasEverPlayed := hasEverPlayed s; timerId := timerId s;
     params := params s; portfolio := portfolio s; history := x;
     logs := logs s |}.

Definition set_logs (x : list LogEntry) (s : State) : State :=
  {| currentStep := currentStep s; isPlaying := isPlaying s;
     hasEverPlayed := hasEverPlayed s; timerId := timerId s;
     params := params s; portfolio := portfolio s; history := history s;
     logs := x |}.

(** [a[i] = v] on a JavaScript array: writing past the end extends the array
    and leaves holes in between. *)
Fixpoint array_set {A : Type} (i : nat) (v : A) (a : list (option A))
  : list (option A) :=
  match i, a with
  | O, [] => [Some v]
  | O, _ :: rest => Some v :: rest
  | S i', [] => None :: array_set i' v []
  | S i', x :: rest => x :: array_set i' v rest
  end.

(** The [state] object as the script declares it, before [init] runs. *)
Definition state0 : State := {|
  currentStep := 0;
  isPlaying := false;
  hasEverPlayed := false;
  timerId := None;
  params := {| shockMagnitude := Num (lit 20);
               targetReserveRatio := Num (lit 110);
               yieldDistribution := Num (lit 5) |};
  portfolio := {| usdc := lit 0; tBills := lit 0; bonds := lit 0; cash := lit 0 |};
  history := [];
  logs := []
|}.

(** *** Presets

    [PRESETS] is an object literal, so [PRESETS[presetName]] finds its three
    own properties and, failing that, the properties every object inherits
    from [Object.prototype]. An inherited member is a function (or, for
    [__proto__], the prototype object): it is truthy, and reading
    [shockMagnitude], [targetReserveRatio], [yieldDistribution] or [label]
    from it gives [undefined]. *)

Record Preset : Type := {
  preset_shockMagnitude : N;
  preset_targetReserveRatio : N;
  preset_yieldDistribution : N;
  label : string
}.

Definition PRESETS : list (string * Preset) := [
  ("conservative"%string,
   {| preset_shockMagnitude := lit 10; preset_targetReserveRatio := lit 130;
      preset_yieldDistribution := lit 2; label := "Conservative" |});
  ("balanced"%string,
   {| preset_shockMagnitude := lit 20; preset_targetReserveRatio := lit 110;
      preset_yieldDistribution := lit 5; label := "Balanced" |});
  ("aggressive"%string,
   {| preset_shockMagnitude := lit 35; preset_targetReserveRatio := lit 105;
      preset_yieldDistribution := lit 8; label := "Aggressive" |})
].

Definition Object_prototype : list string := [
  "constructor"; "__defineGetter__"; "__defineSetter__"; "hasOwnProperty";
  "__lookupGetter__"; "__lookupSetter__"; "isPrototypeOf";
  "propertyIsEnumerable"; "toString"; "valueOf"; "__proto__";
  "toLocaleString"
]%string.

Inductive Property : Type :=
| Own (preset : Preset)
| Inherited (name : string).

Fixpoint own_property (l : list (string * Preset)) (name : string)
  : option Preset :=
  match l with
  | [] => None
  | (k, v) :: rest => if String.eqb k name then Some v else own_property rest name
  end.

(** [PRESETS[presetName]]; [None] is [undefined]. *)
Definition PRESETS_get (presetName : string) : option Property :=
  match own_property PRESETS presetName with
  | Some preset => Some (Own preset)
  | None =>
    if existsb (String.eqb presetName) Object_prototype
    then Some (Inherited presetName)
    else None
  end.

Definition get_shockMagnitude (v : Property) : jsval :=
  match v with Own p => Num (preset_shockMagnitude p) | Inherited _ => Undefined end.

Definition get_targetReserveRatio (v : Property) : jsval :=
  match v with Own p => Num (preset_targetReserveRatio p) | Inherited _ => Undefined end.

Definition get_yieldDistribution (v : Property) : jsval :=
  match v with Own p => Num (preset_yieldDistribution p) | Inherited _ => Undefined end.

Definition get_label (v : Property) : option string :=
  match v with Own p => Some (label p) | Inherited _ => None end.

(** *** The engine and the browser's timers

    [intervals] are the armed [setInterval] timers (each calls [nextStep]),
    [timeouts] the pending [setTimeout(startPlaySequence, 100)] calls.
    Timeouts whose callback only updates the DOM are not recorded; handles
    are only ever compared, so their numbering does not matter. *)

Record World : Type := {
  state : State;
  intervals : list nat;
  timeouts : list nat;
  nextHandle : nat
}.

Definition with_state (f : State -> State) (w : World) : World :=
  {| state := f (state w); intervals := intervals w; timeouts := timeouts w;
     nextHandle := nextHandle w |}.

Definition remove_handle (h : nat) (l : list nat) : list nat :=
  filter (fun h' => negb (Nat.eqb h h')) l.

(** [clearInterval(h)]; timeouts and intervals share one pool of handles. *)
Definition clearInterval (h : nat) (w : World) : World :=
  {| state := state w; intervals := remove_handle h (intervals w);
     timeouts := remove_handle h (timeouts w); nextHandle := nextHandle w |}.

(** [setInterval(() => nextStep(), 2000)] *)
Definition setInterval_nextStep (w : World) : nat * World :=
  (nextHandle w,
   {| state := state w; intervals := nextHandle w :: intervals w;
      timeouts := timeouts w; nextHandle := S (nextHandle w) |}).

(** [setTimeout(() => startPlaySequence(), 100)] *)
Definition setTimeout_startPlaySequence (w : World) : World :=
  {| state := state w; intervals := intervals w;
     timeouts := nextHandle w :: timeouts w; nextHandle := S (nextHandle w) |}.

Definition stopSimulation (w : World) : World :=
  let w := with_state (set_isPlaying false) w in
  match timerId (state w) with
  | Some (S _ as h) =>                    (* a non-zero handle is truthy *)
    let w := clearInterval h w in
    with_state (set_timerId None) w
  | _ => w
  end.

Definition resetSimulation (w : World) : World :=
  let w := stopSimulation w in
  let w := with_state (set_currentStep 0) w in
  let w := with_state (set_portfolio initialPortfolio) w in
  let w := with_state (fun s =>
    set_history [Some {| step := 0; value := getTotalValue (portfolio s) |}] s) w in
  let w := with_state (set_logs []) w in
  with_state (logEvent LogReset) w.

Definition executeStep (stepIndex : nat) (s : State) : State :=
  match nth_error SIMULATION_STEPS stepIndex with
  | None => s
  | Some stepDef =>
    let s :=
      if Nat.eqb stepIndex 0 then set_portfolio initialPortfolio s
      else let '(p, s) := apply stepDef s (portfolio s) in set_portfolio p s in
    let total := getTotalValue (portfolio s) in
    set_history
      (array_set stepIndex {| step := stepIndex; value := total |} (history s)) s
  end.

Definition nextStep (w : World) : World :=
  if Nat.ltb (currentStep (state w)) (List.length SIMULATION_STEPS - 1) then
    let w := with_state (fun s => set_currentStep (S (currentStep s)) s) w in
    let w := with_state (fun s => executeStep (currentStep s) s) w in
    if Nat.eqb (currentStep (state w)) (List.length SIMULATION_STEPS - 1)
    then stopSimulation w
    else w
  else
    stopSimulation w.

Definition startPlaySequence (w : World) : World :=
  let w := with_state (set_isPlaying true) w in
  let w :=
    if negb (hasEverPlayed (state w))
    then with_state (set_hasEverPlayed true) w
    else w in
  let '(h, w) := setInterval_nextStep w in
  with_state (set_timerId (Some h)) w.

Definition playSimulation (w : World) : World :=
  if Nat.eqb (currentStep (state w)) (List.length SIMULATION_STEPS - 1) then
    let w := resetSimulation w in
    setTimeout_startPlaySequence w
  else
    startPlaySequence w.

Definition applyPreset (presetName : string) (w : World) : World :=
  match PRESETS_get presetName with
  | None => w
  | Some preset =>
    let w := with_state (fun s =>
      set_params {| shockMagnitude := get_shockMagnitude preset;
                    targetReserveRatio := get_targetReserveRatio preset;
                    yieldDistribution := get_yieldDistribution preset |} s) w in
    let w := resetSimulation w in
    with_state (logEvent (LogPreset (get_label preset))) w
  end.

(** [init]: install the listeners, then [resetSimulation]. *)
Definition init : World :=
  resetSimulation
    {| state := state0; intervals := []; timeouts := []; nextHandle := 1 |}.

(** *** What can happen to a running page

    The listeners installed by [setupEventListeners], and the two kinds of
    timer callbacks. [renderControls] keeps the play button disabled while
    [isPlaying] and the pause button disabled otherwise. *)

Inductive Event : Type :=
| ClickPlay
| ClickPause
| ClickReset
| ClickPreset (presetName : string)
| SlideShock (v : Z)
| SlideReserve (v : Z)
| SlideDist (v : Z)
| IntervalFires (h : nat)
| TimeoutFires (h : nat).

Definition enabled (e : Event) (w : World) : bool :=
  match e with
  | ClickPlay => negb (isPlaying (state w))
  | ClickPause => isPlaying (state w)
  | IntervalFires h => existsb (Nat.eqb h) (intervals w)
  | TimeoutFires h => existsb (Nat.eqb h) (timeouts w)
  | _ => true
  end.

Definition handle (e : Event) (w : World) : World :=
  match e with
  | ClickPlay => playSimulation w
  | ClickPause => stopSimulation w
  | ClickReset => resetSimulation w
  | ClickPreset presetName => applyPreset presetName w
  | SlideShock v =>
    with_state (fun s => set_params
      {| shockMagnitude := Num (lit v);
         targetReserveRatio := targetReserveRatio (params s);
         yieldDistribution := yieldDistribution (params s) |} s) w
  | SlideReserve v =>
    with_state (fun s => set_params
      {| shockMagnitude := shockMagnitude (params s);
         targetReserveRatio := Num (lit v);
         yieldDistribution := yieldDistribution (params s) |} s) w
  | SlideDist v =>
    with_state (fun s => set_params
      {| shockMagnitude := shockMagnitude (params s);
         targetReserveRatio := targetReserveRatio (params s);
         yieldDistribution := Num (lit v) |} s) w
  | IntervalFires _ => nextStep w
  | TimeoutFires h =>
    startPlaySequence
      {| state := state w; intervals := intervals w;
         timeouts := remove_handle h (timeouts w); nextHandle := nextHandle w |}
  end.

Fixpoint run (es : list Event) (w : World) : option World :=
  match es with
  | [] => Some w
  | e :: rest => if enabled e w then run rest (handle e w) else None
  end.

Definition reachable (w : World) : Prop :=
  exists es, run es init = Some w.

End Engine.

Arguments jsval N : clear implicits.
Arguments Portfolio N : clear implicits.
Arguments Params N : clear implicits.
Arguments LogEntry N : clear implicits.
Arguments HistoryEntry N : clear implicits.
Arguments State N : clear implicits.
Arguments StepDef N : clear implicits.
Arguments Preset N : clear implicits.
Arguments Property N : clear implicits.
Arguments World N : clear implicits.

(** ** The scenarios of the specification *)

Section Scenario.

Context {N : Type} `{Number N}.

(** The declared [state] with the three parameters set. *)
Definition with_params (sm tr yd : jsval N) : State N :=
  set_params {| shockMagnitude := sm; targetReserveRatio := tr;
                yieldDistribution := yd |} state0.

(** The three transitions in order, from the initial portfolio, under the
    parameters 20, 110, 5 the page starts with. *)
Definition after_SHOCK : Portfolio N * State N :=
  SHOCK_apply (with_params (Num (lit 20)) (Num (lit 110)) (Num (lit 5)))
              initialPortfolio.

Definition after_REBALANCE : Portfolio N * State N :=
  REBALANCE_apply (snd after_SHOCK) (fst after_SHOCK).

Definition after_DISTRIBUTION : Portfolio N * State N :=
  DISTRIBUTION_apply (snd after_REBALANCE) (fst after_REBALANCE).

(** Scenarios A, B and C of the specification, as one statement about the
    arithmetic [N]. *)
Definition scenario_ABC : Prop :=
  (bonds (fst after_SHOCK) = lit 160000 /\
   getTotalValue (fst after_SHOCK) = lit 960000) /\
  (bonds (fst after_REBALANCE) = lit 80000 /\
   tBills (fst after_REBALANCE) = lit 380000 /\
   getTotalValue (fst after_REBALANCE) = lit 960000) /\
  (cash (fst after_DISTRIBUTION) = lit 52000 /\
   tBills (fst after_DISTRIBUTION) = lit 380000 /\
   getTotalValue (fst after_DISTRIBUTION) = lit 912000).

(** Scenario E: DISTRIBUTION on the initial portfolio with a 100% payout. *)
Definition scenario_E : Prop :=
  let p := fst (DISTRIBUTION_apply
                  (with_params (Num (lit 20)) (Num (lit 110)) (Num (lit 100)))
                  initialPortfolio) in
  cash p = lit 0 /\ tBills p = lit (-600000).

End Scenario.

(** ** The specification's vocabulary *)

Section Specification.
Context {N : Type} `{Number N}.
Local Open Scope js_scope.



End Specification.

(** ** What the page shows *)

Section Display.
Context {N : Type} `{Number N}.
Local Open Scope js_scope.
Local Open Scope string_scope.

(** [a <= b]: JavaScript decides it like [b >= a], false when an operand is
    NaN. *)
Definition js_le (a b : N) : bool := b >= a.

Definition getSliderLabel (type : string) (val : jsval N) : string :=
  let val := ToNumber val in
  if String.eqb type "shock" then
    if js_le val (lit 10) then "calm markets"
    else if js_le val (lit 25) then "normal turbulence"
    else if js_le val (lit 40) then "rough seas"
    else "full chaos mode"
  else if String.eqb type "reserve" then
    if js_le val (lit 110) then "lightly defensive"
    else if js_le val (lit 130) then "risk-aware"
    else "max safety mode"
  else if String.eqb type "dist" then
    if js_le val (lit 2) then "almost no payouts"
    else if js_le val (lit 6) then "balanced rewards"
    else "aggressive payout policy"
  else EmptyString.


End Display.

(** ** Invariants of the running page *)

Section InvariantDefs.
Context {N : Type} `{Number N}.

(** History entries numbered from [k]. *)
Fixpoint numbered (k : nat) (vs : list N) : list (option (HistoryEntry N)) :=
  match vs with
  | [] => []
  | v :: rest => Some {| step := k; value := v |} :: numbered (S k) rest
  end.

(** What every page state satisfies: the step index is at most 3; the
    history has one entry per step entered, numbered from 0 and without
    holes, the last one holding the total of the current portfolio; the log
    starts with the reset line, followed by one line per step taken and
    possibly the preset line; usdc is the initial 400000. *)
Definition engine_inv (s : State N) : Prop :=
  (currentStep s <= 3)%nat /\
  (exists vs, history s = numbered 0 vs /\
              List.length vs = S (currentStep s) /\
              nth_error vs (currentStep s) = Some (getTotalValue (portfolio s))) /\
  (exists rest, logs s = LogReset :: rest /\
                (List.length rest = currentStep s \/
                 List.length rest = S (currentStep s))) /\
  usdc (portfolio s) = lit 400000.

(** Two states that agree on everything but the play flag, the first-run
    latch and the timer handle. *)
Definition same_engine (s s' : State N) : Prop :=
  currentStep s = currentStep s' /\ params s = params s' /\
  portfolio s = portfolio s' /\ history s = history s' /\ logs s = logs s'.

(** A slider or a preset button: the inputs that set parameters. *)
Definition is_parameter_input (e : Event) : bool :=
  match e with
  | ClickPreset _ | SlideShock _ | SlideReserve _ | SlideDist _ => true
  | _ => false
  end.

(** An armed timer whose handle [timerId] no longer holds. *)
Definition leaked (h : nat) (w : World N) : Prop :=
  In h (intervals w) /\ timerId (state w) <> Some h /\ (h < nextHandle w)%nat.

End InvariantDefs.

(** The page one tick into a run. *)
Definition playing_world : World exact :=
  handle (IntervalFires 1) (handle ClickPlay init).

(** The aggressive preset. *)
Definition aggressive : Preset exact :=
  {| preset_shockMagnitude := lit 35; preset_targetReserveRatio := lit 105;
     preset_yieldDistribution := lit 8; label := "Aggressive" |}.

(** Predicates on exact numbers. [is_val x q]: [x] is the number [q]. *)
Definition is_val (x : exact) (q : Q) : Prop :=
  match x with
  | Fin a => a == q
  | NotANumber => False
  end.

Definition nonneg (x : exact) : Prop :=
  match x with
  | Fin a => 0 <= a
  | NotANumber => False
  end.



(** A portfolio of four numbers. *)
Definition amounts (u t b c : Q) : Portfolio exact :=
  {| usdc := Fin u; tBills := Fin t; bonds := Fin b; cash := Fin c |}.


Definition shock_params (s : Q) (tr yd : jsval exact) : Params exact :=
  {| shockMagnitude := Num (Fin s); targetReserveRatio := tr;
     yieldDistribution := yd |}.

Local Open Scope Q_scope.


(** ** The timer discipline *)

Section TimerDefs.
Context {N : Type} `{Number N}.




End TimerDefs.

(** Play at the terminal step, a second click on play within the 100 ms
    before the delayed start, and then the delayed start. *)
Definition double_click : list Event :=
  [ClickPlay; IntervalFires 1; IntervalFires 1; IntervalFires 1;
   ClickPlay; ClickPlay; TimeoutFires 2].

(** A page at the terminal step whose timer is still armed. *)
Definition terminal_world : World exact :=
  {| state := set_timerId (Some 7%nat)
                (set_isPlaying true (set_currentStep 3 state0));
     intervals := [7%nat]; timeouts := []; nextHandle := 8 |}.

(** ** Checks in binary64 along the page's own path *)

Definition b64_nonneg (x : binary64) : bool := SFleb (lit 0) x.

Definition b64_valid (p : Portfolio binary64) : bool :=
  b64_nonneg (usdc p) && b64_nonneg (tBills p) && b64_nonneg (bonds p)
  && b64_nonneg (cash p).

(** Steps 0 to 2 as the page runs them, from the initial portfolio: the
    amounts stay non-negative and REBALANCE keeps the total, bit for bit. *)
Definition b64_steps_0_to_2_ok (sm tr : Z) : bool :=
  let s := with_params (Num (lit sm)) (Num (lit tr)) (Num (lit 5)) in
  let '(p0, s0) := INITIAL_apply s (portfolio s) in
  let '(p1, s1) := SHOCK_apply s0 p0 in
  let '(p2, s2) := REBALANCE_apply s1 p1 in
  b64_valid p0 && b64_valid p1 && b64_valid p2
  && b64_nonneg (getTotalValue p1) && b64_nonneg (getTotalValue p2)
  && js_seq (getTotalValue p2) (getTotalValue p1).

(** The risk score of [p] does not drop from shock [sm] to [sm + 1]. *)
Definition b64_risk_step_ok (p : Portfolio binary64) (sm : Z) : bool :=
  let score (x : Z) :=
    calculateRiskScore p {| shockMagnitude := Num (lit x);
                            targetReserveRatio := Num (lit 110);
                            yieldDistribution := Num (lit 5) |} in
  SFleb (score sm) (score (sm + 1)%Z).

(** The integers 0, ..., n: the values of a slider. *)
Definition slider (n : nat) : list Z := map Z.of_nat (seq 0 (S n)).

(** * Theorems *)

(** C1. From the initial portfolio with shockMagnitude 20,
    targetReserveRatio 110 and yieldDistribution 5: SHOCK gives bonds 160000
    and total 960000; REBALANCE then gives bonds 80000, tBills 380000 and
    total 960000; DISTRIBUTION then gives cash 52000, tBills 380000 and total
    912000. This holds in exact arithmetic and, bit for bit, in binary64. *)
Theorem scenario_shock_rebalance_distribution :
  @scenario_ABC exact _ /\ @scenario_ABC binary64 _.
Proof.
  split; vm_compute; repeat split; reflexivity.
Qed.

(** The same run through the engine: play, then three ticks of the timer. *)
Lemma engine_run_history :
  option_map (fun w => (currentStep (state w), portfolio (state w),
                        history (state w)))
    (run [ClickPlay; IntervalFires 1; IntervalFires 1; IntervalFires 1]
         (@init exact _))
  = Some (3%nat,
          {| usdc := lit 400000; tBills := lit 380000; bonds := lit 80000;
             cash := lit 52000 |},
          [Some {| step := 0; value := lit 1000000 |};
           Some {| step := 1; value := lit 960000 |};
           Some {| step := 2; value := lit 960000 |};
           Some {| step := 3; value := lit 912000 |}]).
Proof. vm_compute. reflexivity. Qed.

(** ** Statements that hold for every arithmetic *)

Section Structural.

Context {N : Type} `{Number N}.

(** C10. SHOCK, REBALANCE and DISTRIBUTION return a portfolio with the usdc
    field of their input, whatever the state and the input portfolio. *)
Theorem transitions_keep_usdc :
  forall (s : State N) (p : Portfolio N),
    usdc (fst (SHOCK_apply s p)) = usdc p /\
    usdc (fst (REBALANCE_apply s p)) = usdc p /\
    usdc (fst (DISTRIBUTION_apply s p)) = usdc p.
Proof.
  intros s p. unfold SHOCK_apply, REBALANCE_apply, DISTRIBUTION_apply.
  repeat split.
  - destruct (js_lt _ _); reflexivity.
  - cbn. destruct (js_ge _ _); reflexivity.
Qed.

Lemma stopSimulation_engine_fields :
  forall w : World N,
    currentStep (state (stopSimulation w)) = currentStep (state w) /\
    portfolio (state (stopSimulation w)) = portfolio (state w) /\
    history (state (stopSimulation w)) = history (state w) /\
    logs (state (stopSimulation w)) = logs (state w) /\
    params (state (stopSimulation w)) = params (state w).
Proof.
  intros w. unfold stopSimulation. cbn.
  destruct (timerId (state w)) as [[|h]|]; cbn; repeat split.
Qed.

Lemma stopSimulation_idempotent :
  forall w : World N, stopSimulation (stopSimulation w) = stopSimulation w.
Proof.
  intros [s i t n]. unfold stopSimulation. cbn.
  destruct (timerId s) as [[|h]|] eqn:E; cbn; try rewrite E; reflexivity.
Qed.

(** C5. After [resetSimulation], from any state: the step index is 0, the
    portfolio is the initial allocation (400000, 300000, 200000, 100000), the
    history is the single entry (0, total of the initial allocation) and the
    log is the single reset line. *)
Theorem resetSimulation_postcondition :
  forall w : World N,
    let s' := state (resetSimulation w) in
    currentStep s' = 0%nat /\
    portfolio s' = {| usdc := lit 400000; tBills := lit 300000;
                      bonds := lit 200000; cash := lit 100000 |} /\
    history s' = [Some {| step := 0; value := getTotalValue initialPortfolio |}] /\
    logs s' = [LogReset].
Proof.
  intros w. cbn. repeat split.
Qed.

(** C8. At the terminal step 3, [nextStep] changes neither the step index
    nor the portfolio, the history or the log (it only stops the timer), and
    calling it a second time changes nothing at all. The model is a total
    function: there is nothing to raise. *)
Theorem nextStep_at_terminal :
  forall w : World N,
    currentStep (state w) = 3%nat ->
    currentStep (state (nextStep w)) = 3%nat /\
    portfolio (state (nextStep w)) = portfolio (state w) /\
    history (state (nextStep w)) = history (state w) /\
    logs (state (nextStep w)) = logs (state w) /\
    nextStep w = stopSimulation w /\
    nextStep (nextStep w) = nextStep w.
Proof.
  intros w Hterm.
  assert (Hstop : forall v : World N,
             currentStep (state v) = 3%nat -> nextStep v = stopSimulation v).
  { intros v Hv. unfold nextStep. rewrite Hv. reflexivity. }
  destruct (stopSimulation_engine_fields w) as (Hc & Hp & Hh & Hl & _).
  rewrite (Hstop w Hterm).
  rewrite Hc, Hp, Hh, Hl.
  repeat split; try assumption.
  rewrite Hstop by (rewrite Hc; assumption).
  apply stopSimulation_idempotent.
Qed.

(** The risk score of a portfolio whose total is zero is 0, whatever the
    parameters. *)
Lemma calculateRiskScore_zero (p : Portfolio N) (ps : Params N) :
  js_seq (getTotalValue p) (lit 0) = true -> calculateRiskScore p ps = lit 0.
Proof. intros E. unfold calculateRiskScore. rewrite E. reflexivity. Qed.

End Structural.

(** A page at the terminal step with its timer still armed: [nextStep]
    cancels the timer and touches nothing else. *)
Lemma nextStep_at_terminal_witness :
  currentStep (state terminal_world) = 3%nat /\
  intervals (nextStep terminal_world) = [] /\
  logs (state (nextStep terminal_world)) = logs (state terminal_world) /\
  nextStep (nextStep terminal_world) = nextStep terminal_world.
Proof.
  split; [reflexivity | split; [reflexivity | ] ].
  pose proof (@nextStep_at_terminal exact _ terminal_world eq_refl) as K.
  exact (conj (proj1 (proj2 (proj2 (proj2 K))))
              (proj2 (proj2 (proj2 (proj2 (proj2 K)))))).
Defined.

Section Presets.

Context {N : Type} `{Number N}.

Lemma applyPreset_not_found :
  forall (presetName : string) (w : World N),
    PRESETS_get (N := N) presetName = None -> applyPreset presetName w = w.
Proof.
  intros presetName w Hget. unfold applyPreset. rewrite Hget. reflexivity.
Qed.

(** A name that is neither a preset nor a member of [Object.prototype] is
    ignored. *)
Lemma applyPreset_plain_unknown_name :
  forall w : World N,
    applyPreset "custom" w = w /\ applyPreset "undefined" w = w /\
    applyPreset "Balanced" w = w.
Proof.
  intros w. repeat split; apply applyPreset_not_found; reflexivity.
Qed.

(** X22. A recognised name overwrites the three parameters, resets, and then
    logs the preset's label. *)
Lemma applyPreset_recognised :
  forall (presetName : string) (preset : Preset N) (w : World N),
    In (presetName, preset) PRESETS ->
    let w' := applyPreset presetName w in
    params (state w') =
      {| shockMagnitude := Num (preset_shockMagnitude preset);
         targetReserveRatio := Num (preset_targetReserveRatio preset);
         yieldDistribution := Num (preset_yieldDistribution preset) |} /\
    currentStep (state w') = 0%nat /\
    portfolio (state w') = initialPortfolio /\
    history (state w') =
      [Some {| step := 0; value := getTotalValue initialPortfolio |}] /\
    logs (state w') = [LogReset; LogPreset (Some (label preset))] /\
    isPlaying (state w') = false.
Proof.
  intros presetName preset w Hin.
  assert (Hget : PRESETS_get presetName = Some (Own preset)).
  { cbn in Hin.
    destruct Hin as [E | [E | [E | []]]]; inversion E; subst; reflexivity. }
  cbn. unfold applyPreset. rewrite Hget.
  unfold resetSimulation, stopSimulation. cbn.
  destruct (timerId (state w)) as [[|h]|]; cbn; repeat split.
Qed.

(** C9, at the input where the code departs from it: ["constructor"] is not
    a preset, but [PRESETS["constructor"]] is the inherited [Object]
    function, so [applyPreset] goes on: the three parameters become
    [undefined], the simulation is reset and "Preset loaded: undefined" is
    logged. From the freshly initialised page the state is not what it was. *)
Theorem applyPreset_inherited_name :
  (forall w : World N,
     let w' := applyPreset "constructor" w in
     params (state w') =
       {| shockMagnitude := Undefined; targetReserveRatio := Undefined;
          yieldDistribution := Undefined |} /\
     logs (state w') = [LogReset; LogPreset None]) /\
  applyPreset "constructor" (@init N _) <> init.
Proof.
  split.
  - intros w. cbn. unfold applyPreset, resetSimulation, stopSimulation. cbn.
    destruct (timerId (state w)) as [[|h]|]; cbn; split; reflexivity.
  - intros E. apply (f_equal (fun w => shockMagnitude (params (state w)))) in E.
    cbn in E. discriminate E.
Qed.

End Presets.

(** After that call the shock magnitude is [undefined], and the risk score
    shown for the reset portfolio is NaN. *)
Lemma calculateRiskScore_after_inherited_name :
  let s := state (applyPreset "constructor" (@init exact _)) in
  calculateRiskScore (portfolio s) (params s) = NotANumber.
Proof. vm_compute. reflexivity. Qed.

(** ** The timer discipline *)

Section Timers.
Context {N : Type} `{Number N}.




Lemma startPlaySequence_arms (w : World N) :
  intervals (startPlaySequence w) = nextHandle w :: intervals w /\
  timerId (state (startPlaySequence w)) = Some (nextHandle w) /\
  isPlaying (state (startPlaySequence w)) = true /\
  timeouts (startPlaySequence w) = timeouts w /\
  nextHandle (startPlaySequence w) = S (nextHandle w).
Proof.
  unfold startPlaySequence. cbn.
  destruct (hasEverPlayed (state w)); cbn; auto.
Qed.











End Timers.



(** ** Laws of the exact arithmetic *)

(** Reduce the engine's operations without opening the rationals. *)
Ltac ex_cbn :=
  cbn -[Qeq Qle Qlt Qred Qplus Qminus Qmult Qdiv Qmax Qmin Qeq_bool Qle_bool
        inject_Z].

Section ExactArithmetic.

Local Open Scope Q_scope.











Lemma js_lt_val x y a b :
  is_val x a -> is_val y b -> (x < y)%js = negb (Qle_bool b a).
Proof.
  destruct x as [p|], y as [q|]; ex_cbn; intros Hx Hy; try contradiction.
  f_equal. apply eq_true_iff_eq. rewrite !Qle_bool_iff, Hx, Hy. reflexivity.
Qed.

Lemma js_ge_val x y a b :
  is_val x a -> is_val y b -> (x >= y)%js = Qle_bool b a.
Proof.
  destruct x as [p|], y as [q|]; ex_cbn; intros Hx Hy; try contradiction.
  apply eq_true_iff_eq. rewrite !Qle_bool_iff, Hx, Hy. reflexivity.
Qed.






End ExactArithmetic.



Section Invariants.

Local Open Scope Q_scope.














(** C3. DISTRIBUTION takes the payout total * yieldDistribution / 100 from
    cash when cash covers it; otherwise cash becomes 0 and the shortfall is
    subtracted from tBills. Either way the resulting cash is a non-negative
    number, for every portfolio and every parameter set. From the initial
    portfolio with yieldDistribution 100 the result has cash 0 and tBills
    -600000, both in exact arithmetic and in binary64. *)
Theorem DISTRIBUTION_cash_never_negative :
  (forall (s : State exact) (p : Portfolio exact),
     let distAmount :=
       (getTotalValue p * (ToNumber (yieldDistribution (params s)) / lit 100))%js in
     let p' := fst (DISTRIBUTION_apply s p) in
     cash p' = (if (cash p >= distAmount)%js
                then (cash p - distAmount)%js else lit 0) /\
     tBills p' = (if (cash p >= distAmount)%js
                  then tBills p else (tBills p - (distAmount - cash p))%js) /\
     nonneg (cash p')) /\
  @scenario_E exact _ /\ @scenario_E binary64 _.
Proof.
  split; [ | split; vm_compute; split; reflexivity ].
  intros s p. cbn zeta. unfold DISTRIBUTION_apply.
  set (d := (getTotalValue p * _)%js).
  destruct (cash p) as [c|] eqn:Ec, d as [d'|]; ex_cbn; try rewrite Ec; ex_cbn.
  - destruct (Qle_bool d' c) eqn:E; ex_cbn; repeat split; try rewrite Ec;
      try reflexivity.
    + apply Qle_bool_iff in E. rewrite Qred_correct. lra.
    + discriminate.
  - repeat split; try reflexivity. discriminate.
  - repeat split; try reflexivity. discriminate.
  - repeat split; try reflexivity. discriminate.
Qed.

End Invariants.

Section RiskScore.

Local Open Scope Q_scope.












(** Outside both conditions the order can reverse: a negative composition
    risk with a shock below -100 makes the product positive. *)
Lemma calculateRiskScore_negative_bonds_low_shock :
  calculateRiskScore (amounts 0 0 (-1) 2) (shock_params (-300) Undefined Undefined)
    = Fin 100 /\
  calculateRiskScore (amounts 0 0 (-1) 2) (shock_params 0 Undefined Undefined)
    = Fin 0.
Proof. split; vm_compute; reflexivity. Qed.

End RiskScore.

(** ** The risk score in binary64 *)

Section Binary64.

Lemma SFcompare_finite_Gt (m1 m2 : positive) (e1 e2 : Z) :
  SFcompare (S754_finite false m1 e1) (S754_finite false m2 e2) = Some Gt ->
  SFcompare (S754_finite false m2 e2) (S754_finite false m1 e1) = Some Lt.
Proof.
  cbn. rewrite (Z.compare_antisym e1 e2).
  destruct (e1 ?= e2)%Z; cbn; try congruence.
  pose proof (Pos.compare_cont_antisym m1 m2 Eq) as A. cbn in A.
  rewrite <- A.
  destruct (Pos.compare_cont Eq m1 m2); cbn; congruence.
Qed.

(** In binary64 too the clamp lands in [0, 100], whatever was rounded
    before it: only NaN passes through. *)
Lemma b64_clamp_range (r : binary64) :
  r <> S754_nan ->
  let v := Math_min (lit 100) (Math_max (lit 0) r) in
  SFleb (lit 0) v = true /\ SFleb v (lit 100) = true.
Proof.
  intros Hr. destruct r as [s | s | | s m e]; try congruence.
  - destruct s; vm_compute; split; reflexivity.
  - destruct s; vm_compute; split; reflexivity.
  - destruct s; [vm_compute; split; reflexivity | ].
    cbn zeta.
    change (Math_max (lit 0) (S754_finite false m e))
      with (S754_finite false m e).
    change (Math_min (lit 100) (S754_finite false m e))
      with (b64_min (b64_of_Z 100) (S754_finite false m e)).
    unfold b64_min.
    destruct (SFcompare (b64_of_Z 100) (S754_finite false m e))
      as [[ | | ]|] eqn:E.
    + vm_compute; split; reflexivity.
    + vm_compute; split; reflexivity.
    + split; [reflexivity | ].
      unfold SFleb. change (lit 100) with (b64_of_Z 100).
      change (b64_of_Z 100) with (S754_finite false 7036874417766400 (-46)) in *.
      rewrite (SFcompare_finite_Gt E). reflexivity.
    + vm_compute in E. discriminate E.
Qed.

(** X21. The binary64 risk score is NaN or lies between 0 and 100. *)
Lemma calculateRiskScore_b64_range (p : Portfolio binary64) (ps : Params binary64) :
  let v := calculateRiskScore p ps in
  v = S754_nan \/ (SFleb (lit 0) v = true /\ SFleb v (lit 100) = true).
Proof.
  cbn zeta. unfold calculateRiskScore.
  destruct (js_seq _ _); [right; vm_compute; split; reflexivity | ].
  match goal with |- context [Math_max (lit 0) ?r] => set (risk := r) end.
  destruct risk as [s | s | | s m e] eqn:Er;
    [ right | right | left; reflexivity | right ];
    apply b64_clamp_range; discriminate.
Qed.

(** For every integer shock magnitude from 0 to 100 and the targets of the
    presets (and 0 and 200, which never and always trigger the rebalance),
    steps 0 to 2 keep the binary64 amounts non-negative and REBALANCE keeps
    the binary64 total. *)
Lemma b64_steps_0_to_2_integer_shocks :
  forallb (fun sm => forallb (b64_steps_0_to_2_ok sm) [0; 105; 110; 130; 200]%Z)
          (slider 100) = true.
Proof. vm_compute. reflexivity. Qed.

(** On the four portfolios of the scripted run the binary64 risk score is
    non-decreasing along the integer shock magnitudes 0, ..., 100. *)
Lemma b64_risk_monotone_integer_shocks :
  forallb (fun p => forallb (b64_risk_step_ok p) (slider 99))
          [initialPortfolio; fst after_SHOCK; fst after_REBALANCE;
           fst after_DISTRIBUTION] = true.
Proof. vm_compute. reflexivity. Qed.

End Binary64.

(** * Further properties of the engine *)

Local Close Scope Q_scope.

Section EngineSteps.
Context {N : Type} `{Number N}.

Lemma array_set_lookup (A : Type) (i : nat) (v : A) (a : list (option A)) :
  nth_error (array_set i v a) i = Some (Some v).
Proof.
  revert a. induction i as [|i IH]; intros [|x a]; cbn; auto.
Qed.

Lemma array_set_other (A : Type) (i j : nat) (v : A) (a : list (option A)) :
  j <> i -> (j < List.length a)%nat ->
  nth_error (array_set i v a) j = nth_error a j.
Proof.
  revert j a. induction i as [|i IH]; intros [|j] [|x a] Hne Hlt;
    cbn in *; try lia; auto.
  apply IH; lia.
Qed.

Lemma array_set_length (A : Type) (i : nat) (v : A) (a : list (option A)) :
  List.length (array_set i v a) = Nat.max (List.length a) (S i).
Proof.
  revert a. induction i as [|i IH]; intros [|x a]; cbn; try rewrite IH; cbn;
    lia.
Qed.

Lemma array_set_hole (A : Type) (i j : nat) (v : A) (a : list (option A)) :
  (List.length a <= j < i)%nat -> nth_error (array_set i v a) j = Some None.
Proof.
  revert j a. induction i as [|i IH]; intros j a Hj; [lia|].
  destruct a as [|x a], j as [|j]; cbn in *; try lia; auto.
  - apply IH. cbn. lia.
  - apply IH. lia.
Qed.

Lemma array_set_append (A : Type) (v : A) (a : list (option A)) :
  array_set (List.length a) v a = a ++ [Some v].
Proof. induction a as [|x a IH]; cbn; [reflexivity | rewrite IH; reflexivity]. Qed.

(** What a transition of the table does to the state: nothing (INITIAL), or
    one more log line. *)
Lemma apply_effect (stepDef : StepDef N) (s : State N) (p : Portfolio N) :
  In stepDef SIMULATION_STEPS ->
  snd (apply stepDef s p) = s \/
  exists msg, snd (apply stepDef s p) = logEvent msg s.
Proof.
  cbn. intros [<- | [<- | [<- | [<- | []]]]]; cbn; eauto.
  unfold REBALANCE_apply. destruct (js_lt _ _); cbn; eauto.
Qed.

Lemma apply_logs (k : nat) (stepDef : StepDef N) (s : State N) (p : Portfolio N) :
  nth_error SIMULATION_STEPS (S k) = Some stepDef ->
  exists msg, snd (apply stepDef s p) = logEvent msg s.
Proof.
  destruct k as [|[|[|k]]]; cbn; intros E; try injection E as <-; cbn; eauto.
  - unfold REBALANCE_apply. destruct (js_lt _ _); cbn; eauto.
  - destruct k; discriminate E.
Qed.

Lemma apply_usdc (stepDef : StepDef N) (s : State N) (p : Portfolio N) :
  In stepDef SIMULATION_STEPS ->
  usdc (fst (apply stepDef s p)) = usdc p \/
  usdc (fst (apply stepDef s p)) = lit 400000.
Proof.
  cbn. intros [<- | [<- | [<- | [<- | []]]]]; cbn; auto.
  - unfold REBALANCE_apply. destruct (js_lt _ _); cbn; auto.
  - unfold DISTRIBUTION_apply. cbn. destruct (js_ge _ _); cbn; auto.
Qed.

Lemma SIMULATION_STEPS_lookup (k : nat) :
  (k < 4)%nat -> exists stepDef, nth_error SIMULATION_STEPS k = Some stepDef.
Proof.
  intros Hk. destruct k as [|[|[|[|k]]]]; cbn; eauto. lia.
Qed.

(** [executeStep] unfolded for a step of the table. *)
Lemma executeStep_eq (k : nat) (s : State N) :
  (k < 4)%nat ->
  exists s1 : State N,
    ((k = 0%nat /\ s1 = set_portfolio initialPortfolio s) \/
     (exists stepDef, nth_error SIMULATION_STEPS k = Some stepDef /\
        k <> 0%nat /\
        s1 = set_portfolio (fst (apply stepDef s (portfolio s)))
                           (snd (apply stepDef s (portfolio s))))) /\
    executeStep k s =
      set_history (array_set k {| step := k; value := getTotalValue (portfolio s1) |}
                             (history s1)) s1.
Proof.
  intros Hk. destruct (SIMULATION_STEPS_lookup Hk) as [stepDef E].
  unfold executeStep. rewrite E.
  destruct k as [|k].
  - eexists. split; [left; split; reflexivity | reflexivity].
  - cbn [Nat.eqb].
    exists (set_portfolio (fst (apply stepDef s (portfolio s)))
                          (snd (apply stepDef s (portfolio s)))).
    split.
    + right. exists stepDef.
      split; [reflexivity | split; [discriminate | reflexivity] ].
    + destruct (apply stepDef s (portfolio s)) as [p s']. reflexivity.
Qed.

(** X1. For a step index of the table (0 to 3), [executeStep] writes slot
    [k] of the history with the step index and the total of the portfolio it
    has just computed, leaves the other slots as they were, and extends the
    array when [k] is past its end. *)
Theorem executeStep_records_history :
  forall (k : nat) (s : State N),
    (k < 4)%nat ->
    let s' := executeStep k s in
    nth_error (history s') k
      = Some (Some {| step := k; value := getTotalValue (portfolio s') |}) /\
    List.length (history s') = Nat.max (List.length (history s)) (S k) /\
    (forall j, j <> k -> (j < List.length (history s))%nat ->
               nth_error (history s') j = nth_error (history s) j) /\
    (forall j, (List.length (history s) <= j < k)%nat ->
               nth_error (history s') j = Some None).
Proof.
  intros k s Hk. cbn zeta.
  destruct (executeStep_eq s Hk) as (s1 & Hs1 & ->).
  assert (Hh : history s1 = history s).
  { destruct Hs1 as [(_ & ->) | (stepDef & E & _ & ->)]; [reflexivity | ].
    cbn. destruct (@apply_effect stepDef s (portfolio s)
                     (nth_error_In _ _ E)) as [-> | (msg & ->)]; reflexivity. }
  cbn [history set_history portfolio]. rewrite Hh.
  split; [apply array_set_lookup | ].
  split; [apply array_set_length | ].
  split; [intros j Hj Hlt; apply array_set_other; assumption | ].
  intros j Hj. apply array_set_hole, Hj.
Qed.

(** X2. A step index outside the table is ignored: [executeStep] returns the
    state as it is. *)
Theorem executeStep_unknown_step :
  forall (k : nat) (s : State N), (4 <= k)%nat -> executeStep k s = s.
Proof.
  intros k s Hk. unfold executeStep.
  assert (E : nth_error SIMULATION_STEPS k = None)
    by (apply nth_error_None; cbn; exact Hk).
  rewrite E. reflexivity.
Qed.

End EngineSteps.

Section PageInvariants.
Context {N : Type} `{Number N}.

Lemma numbered_app (k : nat) (vs : list N) (v : N) :
  numbered k (vs ++ [v])
  = numbered k vs ++ [Some {| step := k + List.length vs; value := v |}].
Proof.
  revert k. induction vs as [|x vs IH]; intros k; cbn.
  - rewrite Nat.add_0_r. reflexivity.
  - rewrite IH. rewrite Nat.add_succ_r. reflexivity.
Qed.

Lemma numbered_length (k : nat) (vs : list N) :
  List.length (numbered k vs) = List.length vs.
Proof. revert k. induction vs as [|x vs IH]; intros k; cbn; auto. Qed.

Lemma numbered_nth (k i : nat) (vs : list N) (v : N) :
  nth_error vs i = Some v ->
  nth_error (numbered k vs) i = Some (Some {| step := k + i; value := v |}).
Proof.
  revert k i. induction vs as [|x vs IH]; intros k [|i] E; cbn in *;
    try discriminate.
  - injection E as ->. rewrite Nat.add_0_r. reflexivity.
  - rewrite (IH (S k) i E). rewrite Nat.add_succ_r. reflexivity.
Qed.

(** [engine_inv] only looks at four fields. *)
Lemma engine_inv_ext (s s' : State N) :
  currentStep s' = currentStep s -> portfolio s' = portfolio s ->
  history s' = history s -> logs s' = logs s ->
  engine_inv s -> engine_inv s'.
Proof. unfold engine_inv. intros -> -> -> ->. exact (fun K => K). Qed.

Lemma stopSimulation_state (w : World N) :
  state (stopSimulation w) = set_isPlaying false (state w) \/
  state (stopSimulation w) = set_timerId None (set_isPlaying false (state w)).
Proof.
  unfold stopSimulation. cbn.
  destruct (timerId (state w)) as [[|h]|]; cbn; auto.
Qed.

Lemma stopSimulation_keeps (w : World N) :
  currentStep (state (stopSimulation w)) = currentStep (state w) /\
  portfolio (state (stopSimulation w)) = portfolio (state w) /\
  history (state (stopSimulation w)) = history (state w) /\
  logs (state (stopSimulation w)) = logs (state w) /\
  params (state (stopSimulation w)) = params (state w) /\
  hasEverPlayed (state (stopSimulation w)) = hasEverPlayed (state w) /\
  nextHandle (stopSimulation w) = nextHandle w.
Proof.
  unfold stopSimulation. cbn.
  destruct (timerId (state w)) as [[|h]|]; cbn; repeat split.
Qed.

Lemma startPlaySequence_keeps (w : World N) :
  currentStep (state (startPlaySequence w)) = currentStep (state w) /\
  portfolio (state (startPlaySequence w)) = portfolio (state w) /\
  history (state (startPlaySequence w)) = history (state w) /\
  logs (state (startPlaySequence w)) = logs (state w) /\
  params (state (startPlaySequence w)) = params (state w) /\
  hasEverPlayed (state (startPlaySequence w)) = true.
Proof.
  unfold startPlaySequence. cbn.
  destruct (hasEverPlayed (state w)) eqn:E; cbn; repeat split; assumption.
Qed.

Lemma resetSimulation_state (w : World N) :
  state (resetSimulation w) =
    {| currentStep := 0; isPlaying := false;
       hasEverPlayed := hasEverPlayed (state w);
       timerId := timerId (state (stopSimulation w));
       params := params (state w); portfolio := initialPortfolio;
       history := [Some {| step := 0; value := getTotalValue initialPortfolio |}];
       logs := [LogReset] |}.
Proof.
  unfold resetSimulation.
  destruct (stopSimulation_state w) as [E | E]; cbn; rewrite E; reflexivity.
Qed.

Lemma engine_inv_reset (w : World N) : engine_inv (state (resetSimulation w)).
Proof.
  rewrite resetSimulation_state. unfold engine_inv. cbn.
  split; [lia | split; [ | split; [ | reflexivity ] ] ].
  - exists [getTotalValue initialPortfolio]. repeat split.
  - exists []. split; [reflexivity | left; reflexivity].
Qed.

Lemma engine_inv_stop (w : World N) :
  engine_inv (state w) -> engine_inv (state (stopSimulation w)).
Proof.
  destruct (stopSimulation_keeps w) as (Hc & Hp & Hh & Hl & _).
  apply engine_inv_ext; assumption.
Qed.

Lemma engine_inv_start (w : World N) :
  engine_inv (state w) -> engine_inv (state (startPlaySequence w)).
Proof.
  destruct (startPlaySequence_keeps w) as (Hc & Hp & Hh & Hl & _).
  apply engine_inv_ext; assumption.
Qed.

(** One step of the table, taken from a state that satisfies the invariant. *)
Lemma engine_inv_executeStep (s : State N) :
  engine_inv s -> (currentStep s < 3)%nat ->
  engine_inv (executeStep (S (currentStep s))
                          (set_currentStep (S (currentStep s)) s)).
Proof.
  intros (Hc & (vs & Hh & Hlen & Hlast) & (rest & Hl & Hrest) & Hu) Hlt.
  set (k := S (currentStep s)).
  assert (Hk : (k < 4)%nat) by (subst k; lia).
  destruct (executeStep_eq (set_currentStep k s) Hk) as (s1 & Hs1 & ->).
  destruct Hs1 as [(Hk0 & _) | (stepDef & E & _ & ->)]; [subst k; lia | ].
  destruct (@apply_logs N _ (currentStep s) stepDef (set_currentStep k s)
                        (portfolio (set_currentStep k s)) E) as (msg & Hsnd).
  pose proof (@apply_usdc N _ stepDef (set_currentStep k s)
                (portfolio (set_currentStep k s)) (nth_error_In _ _ E)) as Husdc.
  rewrite Hsnd. cbn [portfolio history set_history set_portfolio logEvent
                     set_currentStep logs currentStep] in *.
  set (p' := fst (apply stepDef (set_currentStep k s) (portfolio s))) in *.
  unfold engine_inv.
  cbn [portfolio history logs currentStep set_history set_portfolio logEvent
       set_currentStep].
  split; [subst k; lia | split; [ | split ] ].
  - exists (vs ++ [getTotalValue p']).
    rewrite Hh. rewrite numbered_app. cbn [Nat.add].
    replace k with (List.length (numbered 0 vs))
      by (rewrite numbered_length; subst k; lia).
    rewrite array_set_append. rewrite numbered_length.
    split; [reflexivity | split].
    + rewrite length_app. cbn. lia.
    + rewrite nth_error_app2 by lia.
      replace (List.length vs - List.length vs)%nat with 0%nat by lia.
      reflexivity.
  - exists (rest ++ [msg]). rewrite Hl. split; [reflexivity | ].
    rewrite length_app. cbn. subst k. lia.
  - destruct Husdc as [-> | ->]; [exact Hu | reflexivity].
Qed.

Lemma engine_inv_nextStep (w : World N) :
  engine_inv (state w) -> engine_inv (state (nextStep w)).
Proof.
  intros Hw. unfold nextStep.
  change (List.length (@SIMULATION_STEPS N _) - 1)%nat with 3%nat.
  destruct (Nat.ltb_spec (currentStep (state w)) 3) as [Hlt | Hge];
    [ | apply engine_inv_stop, Hw].
  match goal with |- engine_inv (state (if _ then stopSimulation ?v else _)) =>
    assert (Hv : engine_inv (state v)) end.
  { cbn. apply engine_inv_executeStep; assumption. }
  destruct (Nat.eqb _ _); [apply engine_inv_stop, Hv | exact Hv].
Qed.

Lemma engine_inv_handle (e : Event) (w : World N) :
  engine_inv (state w) -> engine_inv (state (handle e w)).
Proof.
  intros Hw. destruct e; cbn [handle].
  - unfold playSimulation. destruct (Nat.eqb _ _).
    + exact (engine_inv_reset w).
    + apply engine_inv_start, Hw.
  - apply engine_inv_stop, Hw.
  - apply engine_inv_reset.
  - unfold applyPreset. destruct (PRESETS_get presetName) as [preset|];
      [ | exact Hw].
    cbn [state with_state]. rewrite resetSimulation_state.
    unfold engine_inv. cbn.
    split; [lia | split; [ | split; [ | reflexivity ] ] ].
    + exists [getTotalValue initialPortfolio]. repeat split.
    + eexists. split; [reflexivity | right; reflexivity].
  - exact Hw.
  - exact Hw.
  - exact Hw.
  - apply engine_inv_nextStep, Hw.
  - apply (engine_inv_start
             {| state := state w; intervals := intervals w;
                timeouts := remove_handle h (timeouts w);
                nextHandle := nextHandle w |}), Hw.
Qed.

Lemma engine_inv_run (es : list Event) :
  forall w w' : World N,
    engine_inv (state w) -> run es w = Some w' -> engine_inv (state w').
Proof.
  induction es as [|e es IH]; intros w w' Hw Hrun; cbn in Hrun.
  - injection Hrun as <-. exact Hw.
  - destruct (enabled e w); [ | discriminate Hrun].
    eapply IH; [ | exact Hrun]. apply engine_inv_handle, Hw.
Qed.

Lemma engine_inv_reachable (w : World N) :
  reachable w -> engine_inv (state w).
Proof.
  intros (es & Hrun). eapply engine_inv_run; [ | exact Hrun].
  apply engine_inv_reset.
Qed.

(** X3. In every state the page can reach the step index is at most 3 and
    the history has exactly one entry per step entered so far: no holes,
    entry [i] carries step [i], and the last entry carries the total of the
    current portfolio. *)
Theorem reachable_history_tracks_steps :
  forall w : World N,
    reachable w ->
    let s := state w in
    (currentStep s <= 3)%nat /\
    List.length (history s) = S (currentStep s) /\
    (forall i, (i <= currentStep s)%nat ->
       exists v, nth_error (history s) i = Some (Some {| step := i; value := v |})) /\
    nth_error (history s) (currentStep s)
      = Some (Some {| step := currentStep s;
                      value := getTotalValue (portfolio s) |}).
Proof.
  intros w Hw. cbn zeta.
  destruct (engine_inv_reachable Hw) as (Hc & (vs & Hh & Hlen & Hlast) & _).
  rewrite Hh, numbered_length.
  split; [exact Hc | split; [exact Hlen | split] ].
  - intros i Hi.
    destruct (nth_error vs i) as [v|] eqn:E.
    + exists v. apply (numbered_nth 0 i vs E).
    + apply nth_error_None in E. lia.
  - apply (numbered_nth 0 _ vs Hlast).
Qed.


(** X5. No sequence of page events changes the USDC holding: in every state
    the page can reach it is the initial 400000. *)
Theorem reachable_usdc_is_initial :
  forall w : World N, reachable w -> usdc (portfolio (state w)) = lit 400000.
Proof.
  intros w Hw.
  destruct (engine_inv_reachable Hw) as (_ & _ & _ & Hu). exact Hu.
Qed.

End PageInvariants.

Section Controls.
Context {N : Type} `{Number N}.

Lemma remove_handle_In (h x : nat) (l : list nat) :
  In x (remove_handle h l) <-> In x l /\ x <> h.
Proof.
  unfold remove_handle. rewrite filter_In.
  destruct (Nat.eqb_spec h x) as [-> | Hne]; cbn; intuition congruence.
Qed.

Lemma stopSimulation_intervals (w : World N) :
  forall x, In x (intervals (stopSimulation w)) <->
            In x (intervals w) /\ (x = 0%nat \/ timerId (state w) <> Some x).
Proof.
  intros x. unfold stopSimulation. cbn -[remove_handle].
  destruct (timerId (state w)) as [[|h]|]; cbn -[remove_handle].
  - split; [intros Hx; split; [exact Hx | ] | tauto].
    destruct x; [left; reflexivity | right; discriminate].
  - rewrite remove_handle_In. split.
    + intros (Hx & Hne). split; [exact Hx | right; congruence].
    + intros (Hx & [-> | Hne]); split; try assumption; congruence.
  - split; [intros Hx; split; [exact Hx | right; discriminate] | tauto].
Qed.

(** X6. Pause ([stopSimulation]) is idempotent; it leaves the simulation not
    playing, cancels the timer recorded in [timerId] and no other, and does
    not touch the step index, the portfolio, the history, the log or the
    parameters. *)
Theorem stopSimulation_pause :
  forall w : World N,
    stopSimulation (stopSimulation w) = stopSimulation w /\
    isPlaying (state (stopSimulation w)) = false /\
    (forall x, In x (intervals (stopSimulation w)) <->
               In x (intervals w) /\ (x = 0%nat \/ timerId (state w) <> Some x)) /\
    currentStep (state (stopSimulation w)) = currentStep (state w) /\
    portfolio (state (stopSimulation w)) = portfolio (state w) /\
    history (state (stopSimulation w)) = history (state w) /\
    logs (state (stopSimulation w)) = logs (state w) /\
    params (state (stopSimulation w)) = params (state w).
Proof.
  intros w.
  destruct (stopSimulation_keeps w) as (Hc & Hp & Hh & Hl & Hps & _).
  split; [apply stopSimulation_idempotent | ].
  split; [destruct (stopSimulation_state w) as [-> | ->]; reflexivity | ].
  split; [apply stopSimulation_intervals | ].
  repeat split; assumption.
Qed.

(** X7. Reset is idempotent, and it is not a factory reset: the three
    parameters and the first-run latch keep their values. *)
Theorem resetSimulation_idempotent :
  forall w : World N,
    resetSimulation (resetSimulation w) = resetSimulation w /\
    params (state (resetSimulation w)) = params (state w) /\
    hasEverPlayed (state (resetSimulation w)) = hasEverPlayed (state w).
Proof.
  intros w. split; [ | rewrite resetSimulation_state; split; reflexivity].
  destruct w as [[c ip hp tid ps pf hi lg] i t n].
  unfold resetSimulation, stopSimulation.
  destruct tid as [[|h]|]; cbn -[remove_handle]; reflexivity.
Qed.

Lemma executeStep_keeps (k : nat) (s : State N) :
  currentStep (executeStep k s) = currentStep s /\
  params (executeStep k s) = params s /\
  hasEverPlayed (executeStep k s) = hasEverPlayed s /\
  isPlaying (executeStep k s) = isPlaying s /\
  timerId (executeStep k s) = timerId s.
Proof.
  unfold executeStep.
  destruct (nth_error SIMULATION_STEPS k) as [stepDef|] eqn:E; [ | auto].
  apply nth_error_In in E.
  destruct (Nat.eqb k 0); cbn; [auto | ].
  pose proof (@apply_effect N _ stepDef s (portfolio s) E) as K.
  destruct (apply stepDef s (portfolio s)) as [p s']. cbn in *.
  destruct K as [-> | (msg & ->)]; cbn; auto.
Qed.

Lemma nextStep_keeps (w : World N) :
  params (state (nextStep w)) = params (state w) /\
  hasEverPlayed (state (nextStep w)) = hasEverPlayed (state w) /\
  nextHandle (nextStep w) = nextHandle w.
Proof.
  unfold nextStep.
  destruct (Nat.ltb _ _).
  - match goal with |- context [if _ then stopSimulation ?v else _] =>
      assert (Hv : params (state v) = params (state w) /\
                   hasEverPlayed (state v) = hasEverPlayed (state w) /\
                   nextHandle v = nextHandle w);
      [ | destruct (Nat.eqb _ _);
          [ destruct (stopSimulation_keeps v) as (_ & _ & _ & _ & -> & -> & ->) | ];
          exact Hv ]
    end.
    cbn. destruct (executeStep_keeps (S (currentStep (state w)))
                     (set_currentStep (S (currentStep (state w))) (state w)))
      as (_ & -> & -> & _). auto.
  - destruct (stopSimulation_keeps w) as (_ & _ & _ & _ & -> & -> & ->). auto.
Qed.

Lemma nextStep_stops_at_3 (w : World N) :
  currentStep (state w) = 2%nat -> isPlaying (state (nextStep w)) = false.
Proof.
  intros E2. unfold nextStep.
  change (List.length (@SIMULATION_STEPS N _) - 1)%nat with 3%nat.
  rewrite E2. cbn [Nat.ltb Nat.leb].
  match goal with |- context [if _ then stopSimulation ?v else _] =>
    assert (Hv : currentStep (state v) = 3%nat); [ | set (v' := v) in * ]
  end.
  { cbn. destruct (executeStep_keeps (S (currentStep (state w)))
                     (set_currentStep (S (currentStep (state w))) (state w)))
      as (-> & _). cbn. rewrite E2. reflexivity. }
  rewrite Hv. cbn [Nat.eqb].
  destruct (stopSimulation_state v') as [-> | ->]; reflexivity.
Qed.

(** X8. Below the terminal step one tick advances the step index by exactly
    one and leaves the parameters alone; the tick that reaches step 3 also
    stops the simulation, an earlier one leaves play state and timers as
    they are. *)
Theorem nextStep_advances :
  forall w : World N,
    (currentStep (state w) < 3)%nat ->
    currentStep (state (nextStep w)) = S (currentStep (state w)) /\
    params (state (nextStep w)) = params (state w) /\
    (currentStep (state w) = 2%nat -> isPlaying (state (nextStep w)) = false) /\
    ((currentStep (state w) < 2)%nat ->
       isPlaying (state (nextStep w)) = isPlaying (state w) /\
       timerId (state (nextStep w)) = timerId (state w) /\
       intervals (nextStep w) = intervals w).
Proof.
  intros w Hlt.
  split; [ | split; [apply nextStep_keeps | ] ].
  - unfold nextStep.
    change (List.length (@SIMULATION_STEPS N _) - 1)%nat with 3%nat.
    destruct (Nat.ltb_spec (currentStep (state w)) 3) as [_ | Hge]; [ | lia].
    match goal with |- context [if _ then stopSimulation ?v else _] =>
      assert (Hv : currentStep (state v) = S (currentStep (state w))) end.
    { cbn. destruct (executeStep_keeps (S (currentStep (state w)))
                       (set_currentStep (S (currentStep (state w))) (state w)))
        as (-> & _). reflexivity. }
    destruct (Nat.eqb _ _); [ | exact Hv].
    match goal with |- context [stopSimulation ?v] =>
      destruct (stopSimulation_keeps v) as (-> & _) end. exact Hv.
  - unfold nextStep.
    change (List.length (@SIMULATION_STEPS N _) - 1)%nat with 3%nat.
    destruct (Nat.ltb_spec (currentStep (state w)) 3) as [_ | Hge]; [ | lia].
    match goal with |- context [if _ then stopSimulation ?v else _] =>
      assert (Hv : currentStep (state v) = S (currentStep (state w)) /\
                   isPlaying (state v) = isPlaying (state w) /\
                   timerId (state v) = timerId (state w) /\
                   intervals v = intervals w);
      [ | set (v' := v) in * ]
    end.
    { cbn. destruct (executeStep_keeps (S (currentStep (state w)))
                       (set_currentStep (S (currentStep (state w))) (state w)))
        as (-> & _ & _ & -> & ->). auto. }
    destruct Hv as (Ec & Ep & Et & Ei). rewrite Ec.
    split.
    + intros E2. rewrite E2. cbn [Nat.eqb].
      destruct (stopSimulation_state v') as [-> | ->]; reflexivity.
    + intros Hlt2.
      destruct (Nat.eqb_spec (S (currentStep (state w))) 3) as [E3 | _]; [lia | ].
      auto.
Qed.

End Controls.

Section Runs.
Context {N : Type} `{Number N}.

Lemma same_engine_trans (s1 s2 s3 : State N) :
  same_engine s1 s2 -> same_engine s2 s3 -> same_engine s1 s3.
Proof.
  unfold same_engine.
  intros (-> & -> & -> & -> & ->) (-> & -> & -> & -> & ->). auto.
Qed.

(** The transitions read the parameters and the portfolio, and write the
    log: the play flag, the latch and the timer handle do not matter. *)
Lemma executeStep_same_engine (k : nat) (s s' : State N) :
  same_engine s s' -> same_engine (executeStep k s) (executeStep k s').
Proof.
  destruct s as [c ip hp tid ps pf hi lg], s' as [c' ip' hp' tid' ps' pf' hi' lg'].
  unfold same_engine. cbn. intros (-> & -> & -> & -> & ->).
  destruct k as [|[|[|[|k]]]]; unfold executeStep; cbn; auto.
  - unfold REBALANCE_apply. cbn. destruct (js_lt _ _); cbn; auto.
  - destruct k; cbn; auto.
Qed.

(** The state after a tick taken below the terminal step, up to the play
    flag and the timer handle, which only [stopSimulation] touches. *)
Lemma nextStep_same_engine (w : World N) (s : State N) :
  (currentStep s < 3)%nat -> same_engine (state w) s ->
  same_engine (state (nextStep w))
              (executeStep (S (currentStep s)) (set_currentStep (S (currentStep s)) s)).
Proof.
  intros Hlt Hs.
  assert (Hc : currentStep (state w) = currentStep s) by apply Hs.
  apply same_engine_trans
    with (executeStep (S (currentStep (state w)))
                      (set_currentStep (S (currentStep (state w))) (state w))).
  - unfold nextStep.
    change (List.length (@SIMULATION_STEPS N _) - 1)%nat with 3%nat.
    destruct (Nat.ltb_spec (currentStep (state w)) 3) as [_ | Hge]; [ | lia].
    destruct (Nat.eqb _ _); [ | unfold same_engine; cbn; auto].
    match goal with |- context [stopSimulation ?v] =>
      destruct (stopSimulation_state v) as [-> | ->] end;
      unfold same_engine; cbn; auto.
  - rewrite Hc. apply executeStep_same_engine.
    destruct Hs as (_ & Hp & Hpf & Hh & Hl).
    unfold same_engine. cbn. auto.
Qed.

Lemma apply_fst_params (stepDef : StepDef N) (s s' : State N) (p : Portfolio N) :
  In stepDef SIMULATION_STEPS -> params s = params s' ->
  fst (apply stepDef s p) = fst (apply stepDef s' p).
Proof.
  cbn. intros [<- | [<- | [<- | [<- | []]]]] E; cbn;
    unfold SHOCK_apply, REBALANCE_apply, DISTRIBUTION_apply; rewrite ?E;
    try reflexivity.
  destruct (js_lt _ _); reflexivity.
Qed.

(** One numbered step of the table, run on a state. *)
Lemma executeStep_summary (k : nat) (stepDef : StepDef N) (s : State N) :
  nth_error SIMULATION_STEPS (S k) = Some stepDef ->
  let s' := executeStep (S k) (set_currentStep (S k) s) in
  currentStep s' = S k /\
  params s' = params s /\
  portfolio s' = fst (apply stepDef s (portfolio s)) /\
  history s' = array_set (S k) {| step := S k; value := getTotalValue (portfolio s') |}
                         (history s) /\
  List.length (logs s') = S (List.length (logs s)).
Proof.
  intros E. cbn zeta.
  assert (Hk : (S k < 4)%nat).
  { change 4%nat with (List.length (@SIMULATION_STEPS N _)).
    apply nth_error_Some. rewrite E. discriminate. }
  destruct (executeStep_eq (set_currentStep (S k) s) Hk) as (s1 & Hs1 & ->).
  destruct Hs1 as [(Hk0 & _) | (stepDef' & E' & _ & ->)]; [discriminate Hk0 | ].
  rewrite E in E'. injection E' as <-.
  destruct (@apply_logs N _ k stepDef (set_currentStep (S k) s)
              (portfolio (set_currentStep (S k) s)) E) as (msg & ->).
  rewrite (@apply_fst_params stepDef (set_currentStep (S k) s) s
             (portfolio (set_currentStep (S k) s))
             (nth_error_In _ _ E) eq_refl).
  cbn. rewrite length_app. cbn. repeat split. lia.
Qed.

(** X9. A whole run composes the table: after a reset, three ticks leave the
    portfolio DISTRIBUTION (REBALANCE (SHOCK initial)) computed with the
    parameters in force, four history entries holding the totals after each
    step, four log lines, step index 3 and the simulation stopped. *)
Theorem three_ticks_compose :
  forall w : World N,
    let s := state w in
    let p1 := fst (SHOCK_apply s initialPortfolio) in
    let p2 := fst (REBALANCE_apply s p1) in
    let p3 := fst (DISTRIBUTION_apply s p2) in
    let s3 := state (nextStep (nextStep (nextStep (resetSimulation w)))) in
    currentStep s3 = 3%nat /\
    portfolio s3 = p3 /\
    history s3 = [Some {| step := 0; value := getTotalValue initialPortfolio |};
                  Some {| step := 1; value := getTotalValue p1 |};
                  Some {| step := 2; value := getTotalValue p2 |};
                  Some {| step := 3; value := getTotalValue p3 |}] /\
    List.length (logs s3) = 4%nat /\
    isPlaying s3 = false.
Proof.
  intros w. cbn zeta.
  set (w0 := resetSimulation w).
  set (s0 := state w0).
  assert (R0 : currentStep s0 = 0%nat /\ params s0 = params (state w) /\
               portfolio s0 = initialPortfolio /\
               history s0 = [Some {| step := 0;
                                     value := getTotalValue initialPortfolio |}] /\
               List.length (logs s0) = 1%nat)
    by (subst s0 w0; rewrite resetSimulation_state; cbn; auto).
  destruct R0 as (C0 & A0 & P0 & H0 & G0).
  assert (E0 : same_engine (state w0) s0) by (unfold same_engine; auto).
  assert (L0 : (currentStep s0 < 3)%nat) by (rewrite C0; lia).
  pose proof (nextStep_same_engine w0 L0 E0) as E1. rewrite C0 in E1.
  destruct (@executeStep_summary 0 _ s0 eq_refl) as (C1 & A1 & P1 & H1 & G1).
  set (s1 := executeStep 1 _) in *.
  assert (L1 : (currentStep s1 < 3)%nat) by (rewrite C1; lia).
  pose proof (nextStep_same_engine (nextStep w0) L1 E1) as E2. rewrite C1 in E2.
  destruct (@executeStep_summary 1 _ s1 eq_refl) as (C2 & A2 & P2 & H2 & G2).
  set (s2 := executeStep 2 _) in *.
  assert (L2 : (currentStep s2 < 3)%nat) by (rewrite C2; lia).
  pose proof (nextStep_same_engine (nextStep (nextStep w0)) L2 E2) as E3.
  rewrite C2 in E3.
  destruct (@executeStep_summary 2 _ s2 eq_refl) as (C3 & A3 & P3 & H3 & G3).
  set (s3 := executeStep 3 _) in *.
  assert (T2 : currentStep (state (nextStep (nextStep w0))) = 2%nat)
    by (destruct E2 as (-> & _); exact C2).
  assert (T3 : (currentStep (state (nextStep (nextStep w0))) < 3)%nat)
    by (rewrite T2; lia).
  pose proof (nextStep_stops_at_3 (nextStep (nextStep w0)) T2) as Hstop.
  cbn [apply] in P1, P2, P3.
  assert (Q1 : portfolio s1 = fst (SHOCK_apply (state w) initialPortfolio)).
  { rewrite P1, P0.
    apply (@apply_fst_params {| id := 1; key := "SHOCK"; apply := SHOCK_apply |});
      [cbn; auto | exact A0]. }
  assert (Q2 : portfolio s2 = fst (REBALANCE_apply (state w) (portfolio s1))).
  { rewrite P2.
    apply (@apply_fst_params
             {| id := 2; key := "REBALANCE"; apply := REBALANCE_apply |});
      [cbn; auto | rewrite A1; exact A0]. }
  assert (Q3 : portfolio s3 = fst (DISTRIBUTION_apply (state w) (portfolio s2))).
  { rewrite P3.
    apply (@apply_fst_params
             {| id := 3; key := "DISTRIBUTION"; apply := DISTRIBUTION_apply |});
      [cbn; auto | rewrite A2, A1; exact A0]. }
  destruct E3 as (-> & _ & -> & -> & ->).
  rewrite H3, H2, H1, H0, G3, G2, G1, G0, Q3, Q2, Q1.
  split; [exact C3 | ].
  split; [reflexivity | ].
  split; [reflexivity | ].
  split; [reflexivity | exact Hstop].
Qed.

End Runs.

Section Frames.
Context {N : Type} `{Number N}.

(** X10. Only the sliders and the preset buttons change the parameters:
    play, pause, reset, a tick of the timer and the delayed start all leave
    them as they are. *)
Theorem only_inputs_change_params :
  forall (e : Event) (w : World N),
    is_parameter_input e = false ->
    params (state (handle e w)) = params (state w).
Proof.
  intros e w He. destruct e; try discriminate He; cbn [handle].
  - unfold playSimulation. destruct (Nat.eqb _ _).
    + unfold setTimeout_startPlaySequence. cbn [state].
      rewrite resetSimulation_state. reflexivity.
    + apply startPlaySequence_keeps.
  - apply stopSimulation_keeps.
  - rewrite resetSimulation_state. reflexivity.
  - apply nextStep_keeps.
  - apply (startPlaySequence_keeps
             {| state := state w; intervals := intervals w;
                timeouts := remove_handle h (timeouts w);
                nextHandle := nextHandle w |}).
Qed.

Lemma handle_hasEverPlayed (e : Event) (w : World N) :
  hasEverPlayed (state w) = true -> hasEverPlayed (state (handle e w)) = true.
Proof.
  intros Hw. destruct e; cbn [handle].
  - unfold playSimulation. destruct (Nat.eqb _ _).
    + unfold setTimeout_startPlaySequence. cbn [state].
      rewrite resetSimulation_state. exact Hw.
    + apply startPlaySequence_keeps.
  - destruct (stopSimulation_keeps w) as (_ & _ & _ & _ & _ & -> & _). exact Hw.
  - rewrite resetSimulation_state. exact Hw.
  - unfold applyPreset. destruct (PRESETS_get presetName); [ | exact Hw].
    cbn [state with_state]. rewrite resetSimulation_state. exact Hw.
  - exact Hw.
  - exact Hw.
  - exact Hw.
  - destruct (nextStep_keeps w) as (_ & -> & _). exact Hw.
  - apply (startPlaySequence_keeps
             {| state := state w; intervals := intervals w;
                timeouts := remove_handle h (timeouts w);
                nextHandle := nextHandle w |}).
Qed.

(** X11. [hasEverPlayed] is a one-way latch: once it is set, no sequence of
    page events clears it, and [startPlaySequence] always leaves it set. *)
Theorem hasEverPlayed_latch :
  (forall w : World N, hasEverPlayed (state (startPlaySequence w)) = true) /\
  (forall (es : list Event) (w w' : World N),
     hasEverPlayed (state w) = true -> run es w = Some w' ->
     hasEverPlayed (state w') = true).
Proof.
  split; [intros w; apply startPlaySequence_keeps | ].
  induction es as [|e es IH]; intros w w' Hw Hrun; cbn in Hrun.
  - injection Hrun as <-. exact Hw.
  - destruct (enabled e w); [ | discriminate Hrun].
    eapply IH; [ | exact Hrun]. apply handle_hasEverPlayed, Hw.
Qed.

Lemma leaked_stop (h : nat) (w : World N) :
  leaked h w -> leaked h (stopSimulation w).
Proof.
  intros (Hin & Hid & Hlt). unfold leaked.
  destruct (stopSimulation_keeps w) as (_ & _ & _ & _ & _ & _ & ->).
  split; [ | split; [ | exact Hlt] ].
  - apply stopSimulation_intervals. split; [exact Hin | right; exact Hid].
  - destruct (stopSimulation_state w) as [-> | ->]; cbn; [exact Hid | discriminate].
Qed.

Lemma leaked_with_state (h : nat) (f : State N -> State N) (w : World N) :
  (forall s, timerId (f s) = timerId s) ->
  leaked h w -> leaked h (with_state f w).
Proof.
  intros Hf (Hin & Hid & Hlt). unfold leaked. cbn. rewrite Hf. auto.
Qed.

Lemma leaked_reset (h : nat) (w : World N) :
  leaked h w -> leaked h (resetSimulation w).
Proof.
  intros Hw. apply leaked_stop in Hw. unfold resetSimulation.
  repeat (apply leaked_with_state; [intros s; reflexivity | ]). exact Hw.
Qed.

Lemma leaked_start (h : nat) (w : World N) :
  In h (intervals w) -> (h < nextHandle w)%nat ->
  leaked h (startPlaySequence w).
Proof.
  intros Hin Hlt.
  destruct (startPlaySequence_arms w) as (Ei & Et & _ & _ & En).
  unfold leaked. rewrite Ei, Et, En.
  split; [right; exact Hin | split; [ | lia] ].
  intros E. injection E as E. lia.
Qed.

Lemma leaked_nextStep (h : nat) (w : World N) :
  leaked h w -> leaked h (nextStep w).
Proof.
  intros Hw. unfold nextStep. destruct (Nat.ltb _ _); [ | apply leaked_stop, Hw].
  match goal with |- leaked h (if _ then stopSimulation ?v else _) =>
    assert (Hv : leaked h v) end.
  { apply leaked_with_state; [intros s; apply executeStep_keeps | ].
    apply leaked_with_state; [intros s; reflexivity | exact Hw]. }
  destruct (Nat.eqb _ _); [apply leaked_stop, Hv | exact Hv].
Qed.

Lemma leaked_handle (h : nat) (e : Event) (w : World N) :
  leaked h w -> leaked h (handle e w).
Proof.
  intros Hw. destruct e; cbn [handle].
  - unfold playSimulation. destruct (Nat.eqb _ _).
    + apply leaked_reset in Hw. destruct Hw as (Hin & Hid & Hlt).
      unfold leaked. cbn. auto.
    + destruct Hw as (Hin & _ & Hlt). apply leaked_start; assumption.
  - apply leaked_stop, Hw.
  - apply leaked_reset, Hw.
  - unfold applyPreset. destruct (PRESETS_get presetName); [ | exact Hw].
    apply leaked_with_state; [intros s; reflexivity | ].
    apply leaked_reset.
    apply leaked_with_state; [intros s; reflexivity | exact Hw].
  - apply leaked_with_state; [intros s; reflexivity | exact Hw].
  - apply leaked_with_state; [intros s; reflexivity | exact Hw].
  - apply leaked_with_state; [intros s; reflexivity | exact Hw].
  - apply leaked_nextStep, Hw.
  - destruct Hw as (Hin & _ & Hlt). apply leaked_start; assumption.
Qed.

(** X12. A timer that is armed while [timerId] holds another handle can
    never be cancelled: whatever the user does afterwards (pause, reset,
    presets, play), it stays armed and keeps calling [nextStep]. *)
Theorem leaked_timer_is_never_cancelled :
  forall (es : list Event) (h : nat) (w w' : World N),
    leaked h w -> run es w = Some w' ->
    leaked h w' /\ enabled (IntervalFires h) w' = true.
Proof.
  induction es as [|e es IH]; intros h w w' Hw Hrun; cbn in Hrun.
  - injection Hrun as <-. split; [exact Hw | ].
    cbn. apply existsb_exists. exists h.
    split; [apply Hw | apply Nat.eqb_refl].
  - destruct (enabled e w); [ | discriminate Hrun].
    eapply IH; [ | exact Hrun]. apply leaked_handle, Hw.
Qed.

Lemma own_property_None (presetName : string) :
  presetName <> "conservative"%string -> presetName <> "balanced"%string ->
  presetName <> "aggressive"%string ->
  own_property (@PRESETS N _) presetName = None.
Proof.
  intros H1 H2 H3.
  assert (E1 : String.eqb "conservative" presetName = false)
    by (apply String.eqb_neq; congruence).
  assert (E2 : String.eqb "balanced" presetName = false)
    by (apply String.eqb_neq; congruence).
  assert (E3 : String.eqb "aggressive" presetName = false)
    by (apply String.eqb_neq; congruence).
  unfold PRESETS. cbn [own_property]. rewrite E1, E2, E3. reflexivity.
Qed.

(** X13. [applyPreset] ignores every name that is neither one of the three
    presets nor a member of [Object.prototype]: the whole page state,
    timers included, is returned as it is. *)
Theorem applyPreset_ignores_unknown_names :
  forall (presetName : string) (w : World N),
    presetName <> "conservative"%string -> presetName <> "balanced"%string ->
    presetName <> "aggressive"%string ->
    ~ In presetName Object_prototype ->
    applyPreset presetName w = w.
Proof.
  intros presetName w H1 H2 H3 Hproto.
  unfold applyPreset, PRESETS_get.
  rewrite (own_property_None H1 H2 H3).
  destruct (existsb (String.eqb presetName) Object_prototype) eqn:E;
    [ | reflexivity].
  apply existsb_exists in E. destruct E as (x & Hx & Ex).
  apply String.eqb_eq in Ex. subst x. contradiction.
Qed.

(** X14. Every member of [Object.prototype] passes the guard of
    [applyPreset]: the three parameters become [undefined], the simulation
    is reset and the line logged after the reset line has no label. *)
Theorem applyPreset_inherited_names :
  forall (presetName : string) (w : World N),
    In presetName Object_prototype ->
    let s' := state (applyPreset presetName w) in
    params s' = {| shockMagnitude := Undefined; targetReserveRatio := Undefined;
                   yieldDistribution := Undefined |} /\
    currentStep s' = 0%nat /\
    logs s' = [LogReset; LogPreset None].
Proof.
  intros presetName w Hin. cbn zeta.
  assert (E : PRESETS_get (N := N) presetName = Some (Inherited presetName)).
  { cbn in Hin. repeat (destruct Hin as [<- | Hin]; [reflexivity | ]).
    contradiction. }
  unfold applyPreset. rewrite E. cbn [state with_state].
  rewrite resetSimulation_state. cbn. auto.
Qed.

End Frames.

Section Money.

Local Open Scope Q_scope.



End Money.

Section RiskAfterSteps.

Local Open Scope Q_scope.






End RiskAfterSteps.

Section DisplayLaws.

Local Open Scope Q_scope.



End DisplayLaws.

Section Labels.
Context {N : Type} `{Number N}.

Lemma getSliderLabel_other_type (type : string) (val : jsval N) :
  type <> "shock"%string -> type <> "reserve"%string ->
  type <> "dist"%string ->
  getSliderLabel type val = EmptyString.
Proof.
  intros H1 H2 H3. unfold getSliderLabel.
  rewrite (proj2 (String.eqb_neq type "shock") H1).
  rewrite (proj2 (String.eqb_neq type "reserve") H2).
  rewrite (proj2 (String.eqb_neq type "dist") H3).
  reflexivity.
Qed.

End Labels.

(** X20. The edges of [getSliderLabel]: a type other than shock, reserve
    and dist gets the empty string whatever the value; and a value that is
    not a number (NaN, or the [undefined] a broken preset leaves) fails every
    comparison and gets the last label of its type, in exact arithmetic and
    in binary64 alike. *)
Theorem getSliderLabel_edges :
  (forall (type : string) (val : jsval exact),
     type <> "shock"%string -> type <> "reserve"%string ->
     type <> "dist"%string ->
     getSliderLabel type val = EmptyString) /\
  (forall val : jsval exact,
     ToNumber val = NotANumber ->
     getSliderLabel "shock" val = "full chaos mode"%string /\
     getSliderLabel "reserve" val = "max safety mode"%string /\
     getSliderLabel "dist" val = "aggressive payout policy"%string) /\
  (forall val : jsval binary64,
     ToNumber val = S754_nan ->
     getSliderLabel "shock" val = "full chaos mode"%string /\
     getSliderLabel "reserve" val = "max safety mode"%string /\
     getSliderLabel "dist" val = "aggressive payout policy"%string).
Proof.
  split; [intros type val; apply getSliderLabel_other_type | ].
  split; intros val E; unfold getSliderLabel; rewrite E;
    repeat split; reflexivity.
Qed.

(** ** The properties above at concrete inputs *)

Lemma playing_world_reachable : reachable playing_world.
Proof. exists [ClickPlay; IntervalFires 1%nat]. vm_compute. reflexivity. Qed.

Lemma executeStep_records_history_witness :
  (3 < 4)%nat /\
  List.length (history (executeStep 3 (@state0 exact _))) = 4%nat.
Proof.
  assert (Hk : (3 < 4)%nat) by lia.
  split; [exact Hk | ].
  exact (proj1 (proj2 (@executeStep_records_history exact _ 3 state0 Hk))).
Defined.

Lemma executeStep_unknown_step_witness :
  (4 <= 7)%nat /\ executeStep 7 (@state0 exact _) = state0.
Proof.
  assert (Hk : (4 <= 7)%nat) by lia.
  split; [exact Hk | ].
  exact (@executeStep_unknown_step exact _ 7 state0 Hk).
Defined.

Lemma reachable_history_witness :
  reachable playing_world /\
  List.length (history (state playing_world))
    = S (currentStep (state playing_world)).
Proof.
  split; [exact playing_world_reachable | ].
  exact (proj1 (proj2 (@reachable_history_tracks_steps exact _ playing_world
                         playing_world_reachable))).
Defined.


Lemma reachable_usdc_witness :
  reachable playing_world /\
  usdc (portfolio (state playing_world)) = lit 400000.
Proof.
  split; [exact playing_world_reachable | ].
  exact (@reachable_usdc_is_initial exact _ playing_world
           playing_world_reachable).
Defined.

Lemma nextStep_advances_witness :
  (currentStep (state (@init exact _)) < 3)%nat /\
  currentStep (state (nextStep (@init exact _))) = 1%nat.
Proof.
  assert (Hlt : (currentStep (state (@init exact _)) < 3)%nat) by (cbn; lia).
  split; [exact Hlt | ].
  exact (proj1 (@nextStep_advances exact _ init Hlt)).
Defined.

Lemma only_inputs_change_params_witness :
  is_parameter_input (IntervalFires 1) = false /\
  params (state (handle (IntervalFires 1) (@init exact _)))
    = params (state (@init exact _)).
Proof.
  split; [reflexivity | ].
  exact (@only_inputs_change_params exact _ (IntervalFires 1) init eq_refl).
Defined.

Lemma hasEverPlayed_latch_witness :
  exists w' : World exact,
    run [ClickPause; ClickReset] (startPlaySequence init) = Some w' /\
    hasEverPlayed (state w') = true.
Proof.
  destruct (run [ClickPause; ClickReset] (startPlaySequence (@init exact _)))
    as [w'|] eqn:E; [ | vm_compute in E; discriminate E].
  exists w'. split; [reflexivity | ].
  exact (proj2 (@hasEverPlayed_latch exact _) [ClickPause; ClickReset]
               (startPlaySequence init) w'
               (proj1 (@hasEverPlayed_latch exact _) init) E).
Defined.

Lemma leaked_timer_witness :
  exists w w' : World exact,
    run double_click init = Some w /\ leaked 3 w /\
    run [ClickPause; ClickReset; ClickPreset "balanced"] w = Some w' /\
    enabled (IntervalFires 3) w' = true.
Proof.
  destruct (run double_click (@init exact _)) as [w|] eqn:E;
    [ | vm_compute in E; discriminate E].
  assert (Hw : leaked 3 w).
  { vm_compute in E. injection E as <-. unfold leaked. cbn.
    split; [auto | split; [discriminate | lia] ]. }
  destruct (run [ClickPause; ClickReset; ClickPreset "balanced"] w)
    as [w'|] eqn:E'.
  - exists w, w'. split; [reflexivity | split; [exact Hw | split; [exact E' | ] ] ].
    exact (proj2 (@leaked_timer_is_never_cancelled exact _
                    [ClickPause; ClickReset; ClickPreset "balanced"]
                    3%nat w w' Hw E')).
  - exfalso. vm_compute in E. injection E as <-.
    vm_compute in E'. discriminate E'.
Defined.

Lemma applyPreset_ignores_witness :
  ("custom" <> "conservative" /\ "custom" <> "balanced" /\
   "custom" <> "aggressive" /\ ~ In "custom" Object_prototype)%string /\
  applyPreset "custom" (@init exact _) = init.
Proof.
  assert (H1 : ("custom" <> "conservative")%string) by discriminate.
  assert (H2 : ("custom" <> "balanced")%string) by discriminate.
  assert (H3 : ("custom" <> "aggressive")%string) by discriminate.
  assert (H4 : ~ In "custom"%string Object_prototype).
  { cbn. intros K. repeat (destruct K as [K | K]; [discriminate K | ]). exact K. }
  split; [repeat split; assumption | ].
  exact (@applyPreset_ignores_unknown_names exact _ "custom" init H1 H2 H3 H4).
Defined.

Lemma applyPreset_inherited_witness :
  In "toString"%string Object_prototype /\
  logs (state (applyPreset "toString" (@init exact _)))
    = [LogReset; LogPreset None].
Proof.
  assert (Hin : In "toString"%string Object_prototype).
  { cbn. do 8 right. left. reflexivity. }
  split; [exact Hin | ].
  exact (proj2 (proj2 (@applyPreset_inherited_names exact _ "toString" init Hin))).
Defined.

Local Open Scope Q_scope.






Lemma getSliderLabel_edges_witness :
  ("risk" <> "shock" /\ "risk" <> "reserve" /\ "risk" <> "dist")%string /\
  getSliderLabel "risk" (Num (Fin 5)) = EmptyString.
Proof.
  assert (H1 : ("risk" <> "shock")%string) by discriminate.
  assert (H2 : ("risk" <> "reserve")%string) by discriminate.
  assert (H3 : ("risk" <> "dist")%string) by discriminate.
  split; [repeat split; assumption | ].
  exact (proj1 getSliderLabel_edges "risk"%string (Num (Fin 5)) H1 H2 H3).
Defined.

Lemma applyPreset_recognised_witness :
  In ("aggressive"%string, aggressive) PRESETS /\
  params (state (applyPreset "aggressive" (@init exact _)))
    = {| shockMagnitude := Num (lit 35); targetReserveRatio := Num (lit 105);
         yieldDistribution := Num (lit 8) |}.
Proof.
  assert (Hin : In ("aggressive"%string, aggressive) (@PRESETS exact _)).
  { cbn. right. right. left. reflexivity. }
  split; [exact Hin | ].
  exact (proj1 (@applyPreset_recognised exact _ "aggressive" aggressive init Hin)).
Defined.
